(** * Sales dashboard: normalisation, filtering and aggregation engine

    A shallow embedding of the data engine of [src/app/page.tsx] (field
    resolver [pick], value coercers [toNumber] and [parseDate], the row
    normaliser [rows], the filter [filtered] and the aggregate views), with
    the properties the specification states about them.

    Modelling conventions.
    - A JavaScript string is a [string]: every [ascii] stands for one code
      unit in the range U+0000..U+00FF.  Code units above U+00FF are outside
      the model.
    - A JavaScript number is a [number]: [NaN], the two infinities, or a
      finite value held as a reduced rational.  Sums, differences, quotients
      and numeric literals are rounded to binary64 (to nearest, ties to
      even, an infinity beyond the largest finite value); the sign of zero
      is not modelled.
    - A [Date] is its time value (milliseconds since the epoch, or none for
      an invalid date); the local time zone is a fixed offset [LocalTZA].
    - [null] and [undefined] are the [None] of an option type. *)

From Stdlib Require Import ZArith QArith Qround Qpower List String Ascii Bool Lia Lqa.
From Stdlib Require Import Sorted Permutation.
Import ListNotations.

Local Open Scope Z_scope.

(** ** JavaScript numbers *)

Inductive number : Type :=
| NaN
| PInf
| NInf
| Fin (q : Q).

Module Num.

Definition zero : number := Fin 0.

Definition of_Z (z : Z) : number := Fin (inject_Z z).

(** [NaN] for an absent integer, the integer otherwise. *)
Definition of_int (o : option Z) : number :=
  match o with
  | Some z => of_Z z
  | None => NaN
  end.

(** [Number.isFinite]. *)
Definition isFinite (n : number) : bool :=
  match n with
  | Fin _ => true
  | _ => false
  end.

(** [Number.isNaN]. *)
Definition isNaN (n : number) : bool :=
  match n with
  | NaN => true
  | _ => false
  end.

(** ToBoolean on a number: [NaN] and zero are falsy. *)
Definition truthy (n : number) : bool :=
  match n with
  | NaN => false
  | Fin q => negb (Qeq_bool q 0)
  | _ => true
  end.

Definition neg (n : number) : number :=
  match n with
  | NaN => NaN
  | PInf => NInf
  | NInf => PInf
  | Fin q => Fin (Qred (- q))
  end.

(** [2^e], for an exponent of either sign. *)
Definition pow2 (e : Z) : Q := Qpower 2 e.

(** The integer nearest to [q], the even one of the two when [q] lies half
    way. *)
Definition nearest_even (q : Q) : Z :=
  let f := Qfloor q in
  match (q - inject_Z f ?= 1 # 2)%Q with
  | Lt => f
  | Gt => f + 1
  | Eq => if Z.even f then f else f + 1
  end.

(** The binary exponent of a positive [q]: the [e] with
    [2^e <= q < 2^(e+1)]. *)
Definition ilog2 (q : Q) : Z :=
  let e := Z.log2 (Qnum q) - Z.log2 (QDen q) in
  if Qle_bool (pow2 e) q then e else e - 1.

(** The binary64 value nearest to a positive [q]: 53 significant bits,
    exponents from -1022 (below, the spacing stays [2^-1074]), ties to the
    even significand, and an infinity once the result reaches [2^1024]. *)
Definition round_pos (q : Q) : number :=
  let e := Z.max (ilog2 q) (-1022) in
  let ulp := pow2 (e - 52) in
  let r := (inject_Z (nearest_even (q / ulp)) * ulp)%Q in
  if Qle_bool (pow2 1024) r then PInf else Fin (Qred r).

(** The Number value for a real: binary64 rounding of an exact result. *)
Definition round (q : Q) : number :=
  match (Qred q ?= 0)%Q with
  | Eq => Fin 0
  | Gt => round_pos (Qred q)
  | Lt => neg (round_pos (Qred (- q)))
  end.

(** [a + b]. *)
Definition add (a b : number) : number :=
  match a, b with
  | NaN, _ | _, NaN => NaN
  | PInf, NInf | NInf, PInf => NaN
  | PInf, _ | _, PInf => PInf
  | NInf, _ | _, NInf => NInf
  | Fin x, Fin y => round (x + y)
  end.

(** [a - b]. *)
Definition sub (a b : number) : number :=
  match a, b with
  | NaN, _ | _, NaN => NaN
  | PInf, PInf | NInf, NInf => NaN
  | PInf, _ | _, NInf => PInf
  | NInf, _ | _, PInf => NInf
  | Fin x, Fin y => round (x - y)
  end.

(** [a / b] (division by zero gives an infinity or [NaN]). *)
Definition div (a b : number) : number :=
  match a, b with
  | NaN, _ | _, NaN => NaN
  | Fin x, Fin y =>
      if Qeq_bool y 0 then
        if Qeq_bool x 0 then NaN
        else if Qle_bool 0 x then PInf else NInf
      else round (x / y)
  | Fin _, _ => Fin 0
  | PInf, Fin y => if Qle_bool 0 y then PInf else NInf
  | NInf, Fin y => if Qle_bool 0 y then NInf else PInf
  | _, _ => NaN
  end.

(** [a < b]; false as soon as one side is [NaN]. *)
Definition lt (a b : number) : bool :=
  match a, b with
  | NaN, _ | _, NaN => false
  | PInf, _ => false
  | _, NInf => false
  | NInf, _ => true
  | Fin _, PInf => true
  | Fin x, Fin y => negb (Qle_bool y x)
  end.

(** [a > b]. *)
Definition gt (a b : number) : bool := lt b a.

(** [Math.min(a, b)] and [Math.max(a, b)]. *)
Definition min (a b : number) : number :=
  match a, b with
  | NaN, _ | _, NaN => NaN
  | _, _ => if lt b a then b else a
  end.

Definition max (a b : number) : number :=
  match a, b with
  | NaN, _ | _, NaN => NaN
  | _, _ => if lt a b then b else a
  end.

(** [n || 0]. *)
Definition or_zero (n : number) : number :=
  if truthy n then n else zero.

(** ToIntegerOrInfinity on a finite value: truncation towards zero. *)
Definition trunc (q : Q) : Z := Z.quot (Qnum q) (QDen q).

End Num.

(** ** JavaScript strings *)

Module Str.

Definition code (c : ascii) : Z := Z.of_N (N_of_ascii c).

(** White space and line terminators of the language, as far as they are
    code units below U+0100: TAB, LF, VT, FF, CR, SP and NBSP.  This is
    both the class [\s] of regular expressions and what [trim] removes. *)
Definition is_space (c : ascii) : bool :=
  let n := code c in
  ((9 <=? n) && (n <=? 13)) || (n =? 32) || (n =? 160).

Fixpoint trimStart (s : string) : string :=
  match s with
  | String c t => if is_space c then trimStart t else s
  | EmptyString => EmptyString
  end.

Fixpoint trimEnd (s : string) : string :=
  match s with
  | String c t =>
      match trimEnd t with
      | EmptyString => if is_space c then EmptyString else String c EmptyString
      | t' => String c t'
      end
  | EmptyString => EmptyString
  end.

(** [s.trim()]. *)
Definition trim (s : string) : string := trimEnd (trimStart s).

Definition lower_char (c : ascii) : ascii :=
  let n := code c in
  if ((65 <=? n) && (n <=? 90))
     || ((192 <=? n) && (n <=? 222) && negb (n =? 215))
  then ascii_of_N (Z.to_N (n + 32))
  else c.

(** [s.toLowerCase()]. *)
Fixpoint toLowerCase (s : string) : string :=
  match s with
  | String c t => String (lower_char c) (toLowerCase t)
  | EmptyString => EmptyString
  end.

(** [s.includes(c)] for a one-character needle. *)
Fixpoint includes (c : ascii) (s : string) : bool :=
  match s with
  | String d t => Ascii.eqb d c || includes c t
  | EmptyString => false
  end.

(** [s.split(sep)] for a one-character separator: the result is never
    empty, and [""] splits into [[""]]. *)
Fixpoint split (sep : ascii) (s : string) : list string :=
  match s with
  | EmptyString => [EmptyString]
  | String c t =>
      if Ascii.eqb c sep then EmptyString :: split sep t
      else match split sep t with
           | h :: r => String c h :: r
           | [] => [String c EmptyString]
           end
  end.

(** Removal of every character of a class: [s.replace(/[...]/g, "")]. *)
Fixpoint remove (cls : ascii -> bool) (s : string) : string :=
  match s with
  | String c t => if cls c then remove cls t else String c (remove cls t)
  | EmptyString => EmptyString
  end.

(** ToBoolean on a string: only the empty string is falsy. *)
Definition truthy (s : string) : bool :=
  match s with
  | EmptyString => false
  | _ => true
  end.

(** [s || d]. *)
Definition or_else (s d : string) : string :=
  if truthy s then s else d.

(** Decimal text of an integer, as template literals and string
    concatenation print an integral number. *)
Fixpoint digits_of_pos (fuel : nat) (n : Z) (acc : string) : string :=
  match fuel with
  | O => acc
  | S f =>
      let acc' := String (ascii_of_N (Z.to_N (48 + n mod 10))) acc in
      if n <? 10 then acc' else digits_of_pos f (n / 10) acc'
  end.

Definition of_Z (z : Z) : string :=
  if z <? 0
  then String "-"%char (digits_of_pos (S (Z.to_nat (Z.log2 (- z)))) (- z) EmptyString)
  else digits_of_pos (S (Z.to_nat (Z.log2 z))) z EmptyString.

(** Text of a number that is [NaN] or integral. *)
Definition of_int (o : option Z) : string :=
  match o with
  | Some z => of_Z z
  | None => "NaN"%string
  end.

End Str.

(** ** [Number(s)]: text to number

    The StringNumericLiteral grammar of the language: optional white space
    around an optionally signed decimal literal (digits, fraction, exponent),
    [Infinity], or an unsigned binary, octal or hexadecimal integer; the
    empty text is [0], anything else is [NaN].  The value of a literal is
    its mathematical value rounded to binary64.  (For a decimal literal of
    more than 20 significant digits the language also allows the rounding
    of the value cut after the 20th digit; engines round the full value,
    as here.) *)

Module StringToNumber.

Definition is_digit (c : ascii) : bool :=
  (48 <=? Str.code c) && (Str.code c <=? 57).

Definition digit_val (c : ascii) : option Z :=
  let n := Str.code c in
  if (48 <=? n) && (n <=? 57) then Some (n - 48)
  else if (97 <=? n) && (n <=? 102) then Some (n - 87)
  else if (65 <=? n) && (n <=? 70) then Some (n - 55)
  else None.

Definition is_digit_in (base : Z) (c : ascii) : bool :=
  match digit_val c with
  | Some d => d <? base
  | None => false
  end.

Fixpoint span (p : ascii -> bool) (s : string) : string * string :=
  match s with
  | String c t =>
      if p c then let (a, b) := span p t in (String c a, b)
      else (EmptyString, s)
  | EmptyString => (EmptyString, EmptyString)
  end.

(** Value of a run of digits of the given base, most significant first. *)
Fixpoint value_in (base : Z) (s : string) (acc : Z) : Z :=
  match s with
  | String c t =>
      match digit_val c with
      | Some d => value_in base t (base * acc + d)
      | None => acc
      end
  | EmptyString => acc
  end.

(** A run made of digits of the base only, and not empty. *)
Definition all_digits (base : Z) (s : string) : bool :=
  match s with
  | EmptyString => false
  | _ => match span (is_digit_in base) s with
         | (_, EmptyString) => true
         | _ => false
         end
  end.

(** The mathematical value [mant * 10 ^ e]. *)
Definition scale10 (mant e : Z) : Q :=
  if 0 <=? e then inject_Z (mant * 10 ^ e)
  else Qred (mant # Z.to_pos (10 ^ (- e))).

(** ExponentPart: [e] or [E], an optional sign, digits; absent is [0]. *)
Definition exponent (s : string) : option Z :=
  match s with
  | EmptyString => Some 0
  | String c t =>
      if Ascii.eqb c "e" || Ascii.eqb c "E" then
        match t with
        | String "+" u => if all_digits 10 u then Some (value_in 10 u 0) else None
        | String "-" u => if all_digits 10 u then Some (- value_in 10 u 0) else None
        | _ => if all_digits 10 t then Some (value_in 10 t 0) else None
        end
      else None
  end.

(** StrUnsignedDecimalLiteral, without [Infinity]. *)
Definition unsigned_decimal (s : string) : option Q :=
  let (ip, r1) := span is_digit s in
  let '(fp, r2, ok) :=
    match r1 with
    | String "." r =>
        let (f, r') := span is_digit r in
        (f, r', Str.truthy ip || Str.truthy f)
    | _ => (EmptyString, r1, Str.truthy ip)
    end in
  if ok then
    match exponent r2 with
    | Some e =>
        Some (scale10 (value_in 10 (ip ++ fp) 0) (e - Z.of_nat (String.length fp)))
    | None => None
    end
  else None.

Definition unsigned_literal (s : string) : number :=
  if String.eqb s "Infinity" then PInf
  else match unsigned_decimal s with
       | Some q => Num.round q
       | None => NaN
       end.

(** NonDecimalIntegerLiteral. *)
Definition non_decimal (s : string) : option number :=
  match s with
  | String "0" (String x t) =>
      let base :=
        if Ascii.eqb x "x" || Ascii.eqb x "X" then Some 16
        else if Ascii.eqb x "o" || Ascii.eqb x "O" then Some 8
        else if Ascii.eqb x "b" || Ascii.eqb x "B" then Some 2
        else None in
      match base with
      | Some b =>
          Some (if all_digits b t then Num.round (inject_Z (value_in b t 0)) else NaN)
      | None => None
      end
  | _ => None
  end.

(** [Number(s)] for a string [s]. *)
Definition Number (s : string) : number :=
  let t := Str.trim s in
  match t with
  | EmptyString => Num.zero
  | String "+" u => unsigned_literal u
  | String "-" u => Num.neg (unsigned_literal u)
  | _ => match non_decimal t with
         | Some n => n
         | None => unsigned_literal t
         end
  end.

(** [Number(x)] where [x] is an array element that may be missing:
    [Number(undefined)] is [NaN]. *)
Definition Number_at (parts : list string) (i : nat) : number :=
  match nth_error parts i with
  | Some s => Number s
  | None => NaN
  end.

End StringToNumber.

(** ** Dates

    The time value is in milliseconds since 1970-01-01T00:00:00Z.  The
    functions below are the abstract operations of the language's Date
    objects on exact integers. *)

Record Date : Type := { tv : option Z }.

Module DateOps.

Definition msPerDay : Z := 86400000.

Definition Day (t : Z) : Z := t / msPerDay.

Definition DayFromYear (y : Z) : Z :=
  365 * (y - 1970) + (y - 1969) / 4 - (y - 1901) / 100 + (y - 1601) / 400.

Definition leap (y : Z) : bool :=
  ((y mod 4 =? 0) && negb (y mod 100 =? 0)) || (y mod 400 =? 0).

Definition InLeapYear (y : Z) : Z := if leap y then 1 else 0.

(** The year of a day number (days since the epoch), through the
    400-year, 100-year and 4-year cycles of the calendar counted from
    0000-03-01. *)
Definition YearFromDay (d : Z) : Z :=
  let z := d + 719468 in
  let era := z / 146097 in
  let doe := z - era * 146097 in
  let yoe := (doe - doe / 1460 + doe / 36524 - doe / 146096) / 365 in
  let doy := doe - (365 * yoe + yoe / 4 - yoe / 100) in
  let mp := (5 * doy + 2) / 153 in
  yoe + era * 400 + (if mp <? 10 then 0 else 1).

Definition YearFromTime (t : Z) : Z := YearFromDay (Day t).

Definition DayWithinYear (t : Z) : Z := Day t - DayFromYear (YearFromTime t).

(** Day number within the year of the first of each month (0 = January). *)
Definition month_start (m l : Z) : Z :=
  match m with
  | 0 => 0
  | 1 => 31
  | 2 => 59 + l
  | 3 => 90 + l
  | 4 => 120 + l
  | 5 => 151 + l
  | 6 => 181 + l
  | 7 => 212 + l
  | 8 => 243 + l
  | 9 => 273 + l
  | 10 => 304 + l
  | _ => 334 + l
  end.

Fixpoint month_of (fuel : nat) (m d l : Z) : Z :=
  match fuel with
  | O => m
  | S f => if d <? month_start (m + 1) l then m else month_of f (m + 1) d l
  end.

Definition MonthFromTime (t : Z) : Z :=
  month_of 11 0 (DayWithinYear t) (InLeapYear (YearFromTime t)).


(** [MakeDay(year, month, date)] on integers. *)
Definition MakeDay (y m dt : Z) : Z :=
  let ym := y + m / 12 in
  let mn := m mod 12 in
  DayFromYear ym + month_start mn (InLeapYear ym) + dt - 1.

Definition MakeDate (day time : Z) : Z := day * msPerDay + time.

Definition TimeClip (t : Z) : option Z :=
  if 8640000000000000 <? Z.abs t then None else Some t.

Definition invalid : Date := {| tv := None |}.

(** [d.getTime()]. *)
Definition getTime (d : Date) : number := Num.of_int (tv d).

(** Whether the time value is a number: [!Number.isNaN(d.getTime())]. *)
Definition valid (d : Date) : bool := negb (Num.isNaN (getTime d)).

End DateOps.

(** ** Containers

    A [Map] keeps its entries in insertion order and [set] on a present key
    replaces the value in place; a [Set] keeps first occurrences. *)

Module JSMap.

Section Defs.
Context {V : Type}.

Definition t : Type := list (string * V).

Definition empty : t := [].

Fixpoint get (m : t) (k : string) : option V :=
  match m with
  | [] => None
  | (k', v) :: m' => if String.eqb k' k then Some v else get m' k
  end.

Fixpoint set (m : t) (k : string) (v : V) : t :=
  match m with
  | [] => [(k, v)]
  | (k', v') :: m' =>
      if String.eqb k' k then (k', v) :: m' else (k', v') :: set m' k v
  end.

Definition entries (m : t) : list (string * V) := m.

Definition keys (m : t) : list string := map fst m.
End Defs.

Arguments t : clear implicits.

End JSMap.

Module JSSet.

Definition t : Type := list string.

Definition has (s : t) (x : string) : bool := existsb (String.eqb x) s.

Definition add (s : t) (x : string) : t := if has s x then s else s ++ [x].

(** [new Set(l)]. *)
Definition of_list (l : list string) : t := fold_left add l [].

Definition size (s : t) : Z := Z.of_nat (List.length s).

End JSSet.

(** [Array.prototype.sort] with a comparison function: the sort is stable,
    and for a consistent comparison function every stable sort gives the
    result of this insertion sort.  [x] goes behind [y] only when
    [cmp x y > 0]. *)

Module JSArray.

Section Sort.
Context {A : Type} (cmp : A -> A -> number).

Fixpoint insert (x : A) (l : list A) : list A :=
  match l with
  | [] => [x]
  | y :: t =>
      if Num.gt (cmp x y) Num.zero then y :: insert x t else x :: l
  end.

Definition sort (l : list A) : list A := fold_right insert [] l.
End Sort.

(** The default comparison of [sort()] on strings: code unit order. *)
Definition default_cmp (a b : string) : number :=
  if String.ltb a b then Num.of_Z (-1)
  else if String.ltb b a then Num.of_Z 1
  else Num.zero.

(** [a.slice(0, n)]. *)
Definition slice0 {A : Type} (n : nat) (l : list A) : list A := firstn n l.

(** [a[0]]. *)
Definition first {A : Type} (l : list A) : option A := hd_error l.

End JSArray.

(** ** Raw records

    A raw record is the list of its own properties in the order
    [Object.keys] enumerates them; a value is a text or [null].  The
    properties a record inherits from [Object.prototype] are not part of
    the list: [has] and [get] are [k in r] and [r[k]] for every [k] that is
    not one of the [inherited] names (or that the record has as its own),
    and no alias of the alias tables is such a name. *)

Definition AnyRow : Type := list (string * option string).

Module Obj.

Definition keys (r : AnyRow) : list string := map fst r.

(** The names of the properties of [Object.prototype]. *)
Definition inherited : list string :=
  ["constructor"; "hasOwnProperty"; "isPrototypeOf"; "propertyIsEnumerable";
   "toLocaleString"; "toString"; "valueOf"; "__proto__"; "__defineGetter__";
   "__defineSetter__"; "__lookupGetter__"; "__lookupSetter__"]%string.

(** [k in r], for a name that is not inherited. *)
Definition has (r : AnyRow) (k : string) : bool :=
  existsb (fun p => String.eqb (fst p) k) r.

(** [r[k]] for a name that is not inherited, with [None] for [null] and
    for a missing key. *)
Fixpoint get (r : AnyRow) (k : string) : option string :=
  match r with
  | [] => None
  | (k', v) :: r' => if String.eqb k' k then v else get r' k
  end.

End Obj.

(** ** Field resolver *)

(** The test [k in r && r[k] != null && String(r[k]).trim() !== ""], with
    the text returned when it holds. *)
Definition pick_value (r : AnyRow) (k : string) : option string :=
  if Obj.has r k then
    match Obj.get r k with
    | Some v => if negb (String.eqb (Str.trim v) "") then Some (Str.trim v) else None
    | None => None
    end
  else None.

(** First loop of [pick]: the aliases as they are written. *)
Fixpoint pick_exact (r : AnyRow) (keys : list string) : option string :=
  match keys with
  | [] => None
  | k :: ks =>
      match pick_value r k with
      | Some v => Some v
      | None => pick_exact r ks
      end
  end.

(** The map from lower-cased, trimmed key to key. *)
Definition pick_map (r : AnyRow) : JSMap.t string :=
  fold_left (fun map kk => JSMap.set map (Str.trim (Str.toLowerCase kk)) kk)
            (Obj.keys r) JSMap.empty.

(** Second loop of [pick]: the aliases through the map. *)
Fixpoint pick_loose (r : AnyRow) (map : JSMap.t string) (keys : list string)
  : option string :=
  match keys with
  | [] => None
  | want :: ks =>
      let found :=
        match JSMap.get map (Str.trim (Str.toLowerCase want)) with
        | Some real =>
            if Str.truthy real then
              match Obj.get r real with
              | Some v =>
                  if negb (String.eqb (Str.trim v) "") then Some (Str.trim v) else None
              | None => None
              end
            else None
        | None => None
        end in
      match found with
      | Some v => Some v
      | None => pick_loose r map ks
      end
  end.

Definition pick (r : AnyRow) (keys : list string) : string :=
  match pick_exact r keys with
  | Some v => v
  | None =>
      match pick_loose r (pick_map r) keys with
      | Some v => v
      | None => ""%string
      end
  end.

(** Alias lists that name no inherited property: the lists on which the
    first loop of [pick] looks at own keys only. *)
Definition own_aliases (keys : list string) : bool :=
  forallb (fun k => negb (existsb (String.eqb k) Obj.inherited)) keys.

(** ** Numeric coercion *)

(** The class [[$,%\s]]. *)
Definition strip_class (c : ascii) : bool :=
  Ascii.eqb c "$" || Ascii.eqb c "," || Ascii.eqb c "%" || Str.is_space c.

Definition toNumber (v : option string) : number :=
  match v with
  | None => Num.zero
  | Some text =>
      let s := Str.remove strip_class text in
      let n := StringToNumber.Number s in
      if Num.isFinite n then n else Num.zero
  end.

(** ** Canonical rows, filter state and views *)

Record Row : Type := {
  __orderId : string;
  __orderDate : option Date;
  __shipDate : option Date;
  __sales : number;
  __profit : number;
  __discount : number;
  __region : string;
  __segment : string;
  __category : string;
  __subCategory : string;
  __shipMode : string;
  __state : string;
  __productContainer : string;
  __productName : string;
  __baseMargin : number
}.

(** The filter state of the page: five selectors, where ["All"] stands for
    no constraint, and the two year bounds. *)
Record FilterState : Type := {
  region : string;
  segment : string;
  category : string;
  stateName : string;
  shipMode : string;
  yearFrom : number;
  yearTo : number
}.

(** A value handed to [parseDate]. *)
Inductive any : Type :=
| Null
| Text (s : string)
| DateV (d : Date).

Record Series : Type := { labels : list string; values : list number }.

Record MonthAcc : Type := { acc_sales : number; acc_profit : number }.

Record MonthSeries : Type := {
  x : list string;
  sales : list number;
  profit : list number
}.

Record Point : Type := { px : number; py : number; cat : string }.

Record Kpis : Type := {
  k_sales : number;
  k_profit : number;
  k_orders : Z;
  k_margin : number;
  k_avgDiscount : number;
  k_avgShipDays : number;
  k_aov : number
}.

Record Insights : Type := {
  topRegion : option (string * number);
  topCategory : option (string * number);
  topSegment : option (string * number);
  topState : option (string * number);
  bestSubcat : option (string * number);
  bestMonth : option (string * number);
  overallMargin : number;
  filteredRows : Z
}.

(** The loop
    [for (const r of filtered) m.set(key(r), (m.get(key(r)) || 0) + val(r))]
    that the grouped sums share. *)
Definition get_or_zero (m : JSMap.t number) (k : string) : number :=
  match JSMap.get m k with
  | Some n => Num.or_zero n
  | None => Num.zero
  end.

Definition accumulate (keyFn : Row -> string) (valFn : Row -> number)
  (l : list Row) : JSMap.t number :=
  fold_left (fun m r => JSMap.set m (keyFn r) (Num.add (get_or_zero m (keyFn r)) (valFn r)))
            l JSMap.empty.

(** [.sort((a, b) => b[1] - a[1])]. *)
Definition by_value_desc (a b : string * number) : number :=
  Num.sub (snd b) (snd a).

Definition sort_desc (items : list (string * number)) : list (string * number) :=
  JSArray.sort by_value_desc items.

Definition series_of (items : list (string * number)) : Series :=
  {| labels := map fst items; values := map snd items |}.

Section Engine.

(** The offset of local time from UTC, in milliseconds. *)
Variable LocalTZA : Z.

(** [Date.parse]: the time value the host reads from a text, if any.  The
    formats it accepts beyond the ISO format are the host's choice. *)
Variable DateParse : string -> option Z.

Definition LocalTime (t : Z) : Z := t + LocalTZA.
Definition UTC (t : Z) : Z := t - LocalTZA.

(** [d.getFullYear()] and [d.getMonth()], [NaN] being [None]. *)
Definition fullYear (d : Date) : option Z :=
  option_map (fun t => DateOps.YearFromTime (LocalTime t)) (tv d).

Definition month (d : Date) : option Z :=
  option_map (fun t => DateOps.MonthFromTime (LocalTime t)) (tv d).

Definition getFullYear (d : Date) : number := Num.of_int (fullYear d).


(** [new Date(text)]. *)
Definition Date_of_text (s : string) : Date := {| tv := DateParse s |}.

(** [new Date(year, month, date)]: local midnight of the day. *)
Definition Date_of_fields (year month date : number) : Date :=
  match year, month, date with
  | Fin y, Fin m, Fin d =>
      let yi := Num.trunc y in
      let yr := if (0 <=? yi) && (yi <=? 99) then 1900 + yi else yi in
      {| tv := DateOps.TimeClip
                 (UTC (DateOps.MakeDate
                         (DateOps.MakeDay yr (Num.trunc m) (Num.trunc d)) 0)) |}
  | _, _, _ => DateOps.invalid
  end.

(** Second rule of [parseDate]: [MM/DD/YYYY]. *)
Definition parse_slash (str : string) : option Date :=
  if Str.includes "/" str then
    let parts := Str.split "/" str in
    let m := StringToNumber.Number_at parts 0 in
    let d := StringToNumber.Number_at parts 1 in
    let y := StringToNumber.Number_at parts 2 in
    if Num.truthy m && Num.truthy d && Num.truthy y
    then Some (Date_of_fields y (Num.sub m (Num.of_Z 1)) d)
    else None
  else None.

(** Third rule of [parseDate]: three parts around [-] or [.]. *)
Definition parse_dash (str : string) : option Date :=
  if Str.includes "-" str || Str.includes "." str then
    let sep := if Str.includes "-" str then "-"%char else "."%char in
    let parts := map Str.trim (Str.split sep str) in
    if (List.length parts =? 3)%nat then
      let a := StringToNumber.Number_at parts 0 in
      let b := StringToNumber.Number_at parts 1 in
      let c := StringToNumber.Number_at parts 2 in
      if Num.gt a (Num.of_Z 12)
      then Some (Date_of_fields c (Num.sub b (Num.of_Z 1)) a)
      else Some (Date_of_fields c (Num.sub a (Num.of_Z 1)) b)
    else None
  else None.

(** The part of [parseDate] that works on the text of the value. *)
Definition parse_text (text : string) : option Date :=
  let str := Str.trim text in
  let iso := Date_of_text str in
  if DateOps.valid iso then Some iso
  else match parse_slash str with
       | Some d => Some d
       | None => parse_dash str
       end.

Definition parseDate (v : any) : option Date :=
  match v with
  | Null => None
  | Text EmptyString => None
  | Text s => parse_text s
  | DateV d => if DateOps.valid d then Some d else parse_text "Invalid Date"
  end.

Definition monthKey (d : Date) : string :=
  let y := fullYear d in
  let m := option_map (fun k => k + 1) (month d) in
  let mm :=
    if Num.lt (Num.of_int m) (Num.of_Z 10)
    then ("0" ++ Str.of_int m)%string else Str.of_int m in
  (Str.of_int y ++ "-" ++ mm)%string.

(** *** Row normaliser *)

Definition to_row (r : AnyRow) : Row :=
  let od := parseDate (Text (pick r ["Order Date"; "order date"; "OrderDate"; "Order_Date"; "Date"; "order_date"]%string)) in
  let sd := parseDate (Text (pick r ["Ship Date"; "ship date"; "ShipDate"; "Ship_Date"; "ship_date"]%string)) in
  let seg := Str.or_else (pick r ["Customer Segment"; "customer segment"; "Segment"; "segment"; "Cust Segment"]%string) "Unknown" in
  let st := Str.or_else (pick r ["State or Province"; "state or province"; "State"; "State/Province"; "Province"]%string) "" in
  let baseMargin := toNumber (Some (pick r ["Product Base Margin"; "product base margin"; "Base Margin"; "base margin"]%string)) in
  {| __orderId := Str.or_else (pick r ["Order ID"; "Order Id"; "OrderID"; "order id"; "order_id"]%string) "";
     __orderDate := od;
     __shipDate := sd;
     __sales := Num.or_zero (toNumber (Some (pick r ["Sales"; "sales"; "Total Sales"; "total_sales"]%string)));
     __profit := Num.or_zero (toNumber (Some (pick r ["Profit"; "profit"; "Total Profit"; "total_profit"]%string)));
     __discount := Num.or_zero (toNumber (Some (pick r ["Discount"; "discount"]%string)));
     __region := Str.or_else (pick r ["Region"; "region"]%string) "Unknown";
     __segment := seg;
     __category := Str.or_else (pick r ["Category"; "category"]%string) "Unknown";
     __subCategory := Str.or_else (pick r ["Sub-Category"; "Sub Category"; "sub-category"; "sub category"; "SubCategory"]%string) "Unknown";
     __shipMode := Str.or_else (pick r ["Ship Mode"; "ship mode"; "ShipMode"]%string) "Unknown";
     __state := st;
     __productContainer := Str.or_else (pick r ["Product Container"; "product container"]%string) "Unknown";
     __productName := Str.or_else (pick r ["Product Name"; "product name"]%string) "Unknown";
     __baseMargin := baseMargin |}.

Definition rows (raw : list AnyRow) : list Row := map to_row raw.

(** *** Filter engine *)

(** [sel !== "All" && field !== sel]. *)
Definition rejects (sel field : string) : bool :=
  negb (String.eqb sel "All") && negb (String.eqb field sel).

Definition passes (st : FilterState) (y1 y2 : number) (r : Row) : bool :=
  let y := match __orderDate r with
           | Some d => getFullYear d
           | None => NaN
           end in
  if negb (Num.isFinite y) then false
  else if Num.lt y y1 || Num.gt y y2 then false
  else if rejects (region st) (__region r) then false
  else if rejects (segment st) (__segment r) then false
  else if rejects (category st) (__category r) then false
  else if rejects (stateName st) (__state r) then false
  else if rejects (shipMode st) (__shipMode r) then false
  else true.

Definition filtered (rows : list Row) (st : FilterState) : list Row :=
  let y1 := Num.min (yearFrom st) (yearTo st) in
  let y2 := Num.max (yearFrom st) (yearTo st) in
  filter (passes st y1 y2) rows.

End Engine.

(** ** Ingestion boundary *)

(** The rows kept from the parser's output:
    [data.filter((r) => r && Object.keys(r).length > 1)]. *)
Definition kept (r : option AnyRow) : bool :=
  match r with
  | Some o => (1 <? List.length (Obj.keys o))%nat
  | None => false
  end.

Fixpoint present (data : list (option AnyRow)) : list AnyRow :=
  match data with
  | [] => []
  | Some o :: t => o :: present t
  | None :: t => present t
  end.

Definition ingest (data : list (option AnyRow)) : list AnyRow :=
  present (filter kept data).

(** ** Aggregation engine *)

Definition sum_of (f : Row -> number) (l : list Row) : number :=
  fold_left (fun a r => Num.add a (f r)) l Num.zero.

Definition mean_or_zero (total : number) (n : Z) : number :=
  if negb (n =? 0) then Num.div total (Num.of_Z n) else Num.zero.

Definition shipDays (r : Row) : number :=
  match __orderDate r, __shipDate r with
  | Some od, Some sd =>
      Num.div (Num.sub (DateOps.getTime sd) (DateOps.getTime od)) (Num.of_Z 86400000)
  | _, _ => NaN
  end.

(** [new Set(filtered.map((r) => r.__orderId).filter(Boolean)).size
     || filtered.length]. *)
Definition orders_of (filtered : list Row) : Z :=
  let size := JSSet.size (JSSet.of_list (filter Str.truthy (map __orderId filtered))) in
  if negb (size =? 0) then size else Z.of_nat (List.length filtered).

Definition kpis (filtered : list Row) : Kpis :=
  let sales := sum_of __sales filtered in
  let profit := sum_of __profit filtered in
  let orders := orders_of filtered in
  let n := Z.of_nat (List.length filtered) in
  let margin := if Num.truthy sales then Num.div profit sales else Num.zero in
  let avgDiscount := mean_or_zero (sum_of __discount filtered) n in
  let shipDaysArr := filter Num.isFinite (map shipDays filtered) in
  let avgShipDays :=
    mean_or_zero (fold_left Num.add shipDaysArr Num.zero)
                 (Z.of_nat (List.length shipDaysArr)) in
  let aov := mean_or_zero sales orders in
  {| k_sales := sales; k_profit := profit; k_orders := orders;
     k_margin := margin; k_avgDiscount := avgDiscount;
     k_avgShipDays := avgShipDays; k_aov := aov |}.

Definition bySegment (filtered : list Row) : Series :=
  let m := accumulate __segment __sales filtered in
  let items := sort_desc (JSMap.entries m) in
  series_of items.

Definition byCategory (filtered : list Row) : Series :=
  let m := accumulate __category __sales filtered in
  let items := sort_desc (JSMap.entries m) in
  series_of items.

Definition profitBySubCategory (filtered : list Row) : Series :=
  let m := accumulate __subCategory __profit filtered in
  let items := JSArray.slice0 10 (sort_desc (JSMap.entries m)) in
  series_of items.

Definition salesByRegion (filtered : list Row) : Series :=
  let m := accumulate __region __sales filtered in
  let items := sort_desc (JSMap.entries m) in
  series_of items.

Definition salesByProductContainer (filtered : list Row) : Series :=
  let m := accumulate __productContainer __sales filtered in
  let items := JSArray.slice0 8 (sort_desc (JSMap.entries m)) in
  series_of items.

Definition profitVsBaseMargin (filtered : list Row) : list Point :=
  filter (fun p => Num.isFinite (px p) && Num.isFinite (py p))
         (map (fun r => {| px := __baseMargin r; py := __profit r; cat := __category r |})
              filtered).

(** The helper [sumBy] of the insights. *)
Definition sumBy (filtered : list Row) (keyFn : Row -> string)
  (valFn : Row -> number) : list (string * number) :=
  let m := accumulate (fun r => Str.or_else (keyFn r) "Unknown") valFn filtered in
  sort_desc (JSMap.entries m).

Section Monthly.

Variable LocalTZA : Z.

(** The rows that reach the body of a loop starting with
    [if (!r.__orderDate) continue;], with their date. *)
Definition dated (l : list Row) : list (Date * Row) :=
  flat_map (fun r => match __orderDate r with
                     | Some d => [(d, r)]
                     | None => []
                     end) l.

Definition month_map (filtered : list Row) : JSMap.t MonthAcc :=
  fold_left
    (fun m dr =>
       let key := monthKey LocalTZA (fst dr) in
       let cur := match JSMap.get m key with
                  | Some c => c
                  | None => {| acc_sales := Num.zero; acc_profit := Num.zero |}
                  end in
       JSMap.set m key
         {| acc_sales := Num.add (acc_sales cur) (__sales (snd dr));
            acc_profit := Num.add (acc_profit cur) (__profit (snd dr)) |})
    (dated filtered) JSMap.empty.

(** [m.get(k)!.sales]; [k] is a key of [m] wherever this is used. *)
Definition field_at (f : MonthAcc -> number) (m : JSMap.t MonthAcc)
  (k : string) : number :=
  match JSMap.get m k with
  | Some c => f c
  | None => NaN
  end.

Definition byMonth (filtered : list Row) : MonthSeries :=
  let m := month_map filtered in
  let keys := JSArray.sort JSArray.default_cmp (JSMap.keys m) in
  {| x := keys;
     sales := map (field_at acc_sales m) keys;
     profit := map (field_at acc_profit m) keys |}.

Definition best_month_map (filtered : list Row) : JSMap.t number :=
  fold_left
    (fun m dr =>
       let k := monthKey LocalTZA (fst dr) in
       JSMap.set m k (Num.add (get_or_zero m k) (__sales (snd dr))))
    (dated filtered) JSMap.empty.

Definition insights (filtered : list Row) : Insights :=
  {| topRegion := JSArray.first (sumBy filtered __region __sales);
     topCategory := JSArray.first (sumBy filtered __category __sales);
     topSegment := JSArray.first (sumBy filtered __segment __sales);
     topState := JSArray.first (sumBy filtered __state __sales);
     bestSubcat := JSArray.first (sumBy filtered __subCategory __profit);
     bestMonth :=
       JSArray.first (sort_desc (JSMap.entries (best_month_map filtered)));
     overallMargin := k_margin (kpis filtered);
     filteredRows := Z.of_nat (List.length filtered) |}.

End Monthly.

(** ** A minimal host parser

    A [Date.parse] that reads the calendar-date form [YYYY-MM-DD] of the ISO
    format (as UTC midnight) and nothing else.  It instantiates the host
    parser where a property is shown on concrete inputs. *)

Definition DateParse_iso (s : string) : option Z :=
  match s with
  | String y1 (String y2 (String y3 (String y4 (String "-"
      (String m1 (String m2 (String "-" (String d1 (String d2 EmptyString))))))))) =>
      if forallb StringToNumber.is_digit [y1; y2; y3; y4; m1; m2; d1; d2] then
        let y := StringToNumber.value_in 10 (String y1 (String y2 (String y3 (String y4 EmptyString)))) 0 in
        let m := StringToNumber.value_in 10 (String m1 (String m2 EmptyString)) 0 in
        let d := StringToNumber.value_in 10 (String d1 (String d2 EmptyString)) 0 in
        if (1 <=? m) && (m <=? 12) && (1 <=? d)
           && (d <=? DateOps.MakeDay y m 1 - DateOps.MakeDay y (m - 1) 1)
        then Some (DateOps.MakeDate (DateOps.MakeDay y (m - 1) d) 0)
        else None
      else None
  | _ => None
  end.

(** ** Specification-side notions *)

(** A selector constrains nothing, or the field equals it. *)
Definition admits (sel field : string) : Prop :=
  sel = "All"%string \/ field = sel.

(** The finite numbers the normaliser produces. *)
Definition finite_row (r : Row) : Prop :=
  Num.isFinite (__sales r) = true /\ Num.isFinite (__profit r) = true
  /\ Num.isFinite (__discount r) = true /\ Num.isFinite (__baseMargin r) = true.

(** The finite values of binary64 are multiples of [2^-1074]. *)
Definition on_grid (q : Q) : Prop :=
  exists m : Z, (q == inject_Z m * Num.pow2 (-1074))%Q.

(** What a sum of finite values can be: a value of binary64 or an infinity,
    never [NaN]. *)
Definition rounded (n : number) : Prop :=
  match n with
  | NaN => False
  | Fin q => on_grid q
  | _ => True
  end.

(** The sum of a metric over the rows of one key, in row order: the
    additions the loop performs, each rounded as the code rounds it. *)
Definition total (keyFn : Row -> string) (valFn : Row -> number) (k : string)
  (l : list Row) : number :=
  sum_of valFn (filter (fun r => String.eqb (keyFn r) k) l).

(** The exact sum of a metric over the rows of one key, as a rational and
    with no rounding (an infinity or [NaN] counting for 0). *)
Definition qval (n : number) : Q :=
  match n with
  | Fin q => q
  | _ => 0%Q
  end.

Fixpoint qsum (vs : list number) : Q :=
  match vs with
  | [] => 0%Q
  | v :: t => (qval v + qsum t)%Q
  end.

Definition exact_total (keyFn : Row -> string) (valFn : Row -> number) (k : string)
  (l : list Row) : Q :=
  qsum (map valFn (filter (fun r => String.eqb (keyFn r) k) l)).

(** [a] stands before [b] in [l]. *)
Definition before {A : Type} (a b : A) (l : list A) : Prop :=
  exists l1 l2, l = l1 ++ a :: l2 /\ In b l2.

(** The first occurrence of [a] in [l] comes before every occurrence of [b]. *)
Definition first_before (a b : string) (l : list string) : Prop :=
  exists l1 l2, l = l1 ++ a :: l2 /\ ~ In a l1 /\ ~ In b l1.

(** No entry is followed by one of a greater value. *)
Definition descending (items : list (string * number)) : Prop :=
  StronglySorted (fun a b => Num.lt (snd a) (snd b) = false) items.

(** [items] is the grouped sum of [valFn] by [keyFn] over [l], sorted: one
    entry per key of [l], holding the sum over the rows of that key as the
    loop adds them, in descending order of value, entries of equal value
    in the order in which their keys first occur in [l]. *)
Definition grouped_sum (keyFn : Row -> string) (valFn : Row -> number)
  (l : list Row) (items : list (string * number)) : Prop :=
  NoDup (map fst items)
  /\ (forall k, In k (map fst items) <-> In k (map keyFn l))
  /\ (forall k v, In (k, v) items -> v = total keyFn valFn k l)
  /\ descending items
  /\ (forall a b, before a b items -> snd a = snd b ->
                  first_before (fst a) (fst b) (map keyFn l)).

(** The entries of a series, label by label. *)
Definition entries_of (s : Series) : list (string * number) :=
  combine (labels s) (values s).

(** A grouped-sum view, cut to its first [n] entries when [n] is given. *)
Definition grouped_view (keyFn : Row -> string) (valFn : Row -> number)
  (n : option nat) (l : list Row) (s : Series) : Prop :=
  exists items,
    grouped_sum keyFn valFn l items
    /\ s = series_of (match n with Some k => firstn k items | None => items end).

(** The characters of a text. *)
Fixpoint chars (s : string) : list ascii :=
  match s with
  | String c t => c :: chars t
  | EmptyString => []
  end.

(** The number of keys of a record that hold a text that is not empty. *)
Definition populated (r : AnyRow) : nat :=
  List.length (filter (fun p => match snd p with
                                | Some v => Str.truthy v
                                | None => false
                                end) r).

(** *** Field resolution, declaratively *)

Definition norm (s : string) : string := Str.trim (Str.toLowerCase s).

(** The trimmed text under key [k], when there is one and it is not blank. *)
Definition text_at (r : AnyRow) (k : string) : option string :=
  match Obj.get r k with
  | Some v => if String.eqb (Str.trim v) "" then None else Some (Str.trim v)
  | None => None
  end.

Fixpoint first_some {A B : Type} (f : A -> option B) (l : list A) : option B :=
  match l with
  | [] => None
  | a :: t => match f a with
              | Some b => Some b
              | None => first_some f t
              end
  end.

(** The record key an alias stands for when letter case and surrounding
    white space are ignored: the last key of the record that agrees with
    the alias, unless that key is the empty text. *)
Definition key_like (r : AnyRow) (want : string) : option string :=
  match find (fun kk => String.eqb (norm kk) (norm want)) (rev (Obj.keys r)) with
  | Some real => if Str.truthy real then Some real else None
  | None => None
  end.

Definition resolve_loose (r : AnyRow) (want : string) : option string :=
  match key_like r want with
  | Some real => text_at r real
  | None => None
  end.

Definition resolve (r : AnyRow) (keys : list string) : string :=
  match first_some (text_at r) keys with
  | Some v => v
  | None => match first_some (resolve_loose r) keys with
            | Some v => v
            | None => ""%string
            end
  end.

(** The reading in which an alias stands for any key that agrees with it
    when letter case and surrounding white space are ignored. *)
Definition resolve_any (r : AnyRow) (want : string) : option string :=
  first_some (fun kk => if String.eqb (norm kk) (norm want) then text_at r kk else None)
             (Obj.keys r).

Definition resolve_spec (r : AnyRow) (keys : list string) : string :=
  match first_some (text_at r) keys with
  | Some v => v
  | None => match first_some (resolve_any r) keys with
            | Some v => v
            | None => ""%string
            end
  end.

(** ** Further helpers of the page: year bounds, reset, option lists,
    state abbreviations *)

Record YearBounds : Type := { minY : number; maxY : number }.

(** [Math.min(...ys)] and [Math.max(...ys)]: without argument they are
    [Infinity] and [-Infinity].  (The host's limit on the number of
    arguments of a call is not modelled.) *)
Definition Math_min (ys : list number) : number := fold_left Num.min ys PInf.
Definition Math_max (ys : list number) : number := fold_left Num.max ys NInf.

Section Bounds.

Variable LocalTZA : Z.

(** [r.__orderDate ? r.__orderDate.getFullYear() : NaN]. *)
Definition year_or_NaN (r : Row) : number :=
  match __orderDate r with
  | Some d => getFullYear LocalTZA d
  | None => NaN
  end.

Definition yearBounds (rows : list Row) : YearBounds :=
  let ys := filter Num.isFinite (map year_or_NaN rows) in
  let lo := if negb (List.length ys =? 0)%nat then Math_min ys else Num.of_Z 2010 in
  let hi := if negb (List.length ys =? 0)%nat then Math_max ys else Num.of_Z 2016 in
  {| minY := lo; maxY := hi |}.

End Bounds.

(** The filter state [resetAll] leaves behind. *)
Definition resetAll (b : YearBounds) : FilterState :=
  {| region := "All"; segment := "All"; category := "All"; stateName := "All";
     shipMode := "All"; yearFrom := minY b; yearTo := maxY b |}.

Record Options : Type := {
  regions : list string;
  segments : list string;
  categories : list string;
  states : list string;
  shipModes : list string
}.

Section OptionLists.

(** [a.localeCompare(b)]: the order is the host's and the locale's. *)
Variable localeCompare : string -> string -> number.

Definition uniq (arr : list string) : list string :=
  JSArray.sort localeCompare
    (JSSet.of_list
       (filter (fun x => Str.truthy x && negb (String.eqb (Str.trim x) "")) arr)).

Definition options (rows : list Row) : Options :=
  {| regions := uniq (map __region rows);
     segments := uniq (map __segment rows);
     categories := uniq (map __category rows);
     states := uniq (map __state rows);
     shipModes := uniq (map __shipMode rows) |}.

End OptionLists.

(** [c.toUpperCase()] for one code unit below U+0100: the sharp s becomes
    [SS]; the micro sign and the y with diaeresis have their upper case
    above U+00FF, outside the model ([None]). *)
Definition upper_char (c : ascii) : option string :=
  let n := Str.code c in
  if ((97 <=? n) && (n <=? 122))
     || ((224 <=? n) && (n <=? 254) && negb (n =? 247))
  then Some (String (ascii_of_N (Z.to_N (n - 32))) EmptyString)
  else if n =? 223 then Some "SS"%string
  else if (n =? 181) || (n =? 255) then None
  else Some (String c EmptyString).

(** [s.toUpperCase()]. *)
Fixpoint toUpperCase (s : string) : option string :=
  match s with
  | String c t =>
      match upper_char c, toUpperCase t with
      | Some u, Some v => Some (u ++ v)%string
      | _, _ => None
      end
  | EmptyString => Some EmptyString
  end.

Definition STATE_TO_ABBR : list (string * string) :=
  [("ALABAMA", "AL"); ("ALASKA", "AK"); ("ARIZONA", "AZ"); ("ARKANSAS", "AR");
   ("CALIFORNIA", "CA"); ("COLORADO", "CO"); ("CONNECTICUT", "CT");
   ("DELAWARE", "DE"); ("DISTRICT OF COLUMBIA", "DC"); ("FLORIDA", "FL");
   ("GEORGIA", "GA"); ("HAWAII", "HI"); ("IDAHO", "ID"); ("ILLINOIS", "IL");
   ("INDIANA", "IN"); ("IOWA", "IA"); ("KANSAS", "KS"); ("KENTUCKY", "KY");
   ("LOUISIANA", "LA"); ("MAINE", "ME"); ("MARYLAND", "MD");
   ("MASSACHUSETTS", "MA"); ("MICHIGAN", "MI"); ("MINNESOTA", "MN");
   ("MISSISSIPPI", "MS"); ("MISSOURI", "MO"); ("MONTANA", "MT");
   ("NEBRASKA", "NE"); ("NEVADA", "NV"); ("NEW HAMPSHIRE", "NH");
   ("NEW JERSEY", "NJ"); ("NEW MEXICO", "NM"); ("NEW YORK", "NY");
   ("NORTH CAROLINA", "NC"); ("NORTH DAKOTA", "ND"); ("OHIO", "OH");
   ("OKLAHOMA", "OK"); ("OREGON", "OR"); ("PENNSYLVANIA", "PA");
   ("RHODE ISLAND", "RI"); ("SOUTH CAROLINA", "SC"); ("SOUTH DAKOTA", "SD");
   ("TENNESSEE", "TN"); ("TEXAS", "TX"); ("UTAH", "UT"); ("VERMONT", "VT");
   ("VIRGINIA", "VA"); ("WASHINGTON", "WA"); ("WEST VIRGINIA", "WV");
   ("WISCONSIN", "WI"); ("WYOMING", "WY")]%string.

(** [STATE_TO_ABBR[k] ?? ""].  (No property that the table inherits is
    spelled without a lower-case letter, so none is found under an
    upper-cased key.) *)
Definition abbr_of (k : string) : string :=
  match JSMap.get STATE_TO_ABBR k with
  | Some a => a
  | None => ""%string
  end.

(** [toStateAbbr(s)]; [None] where the result has a code unit above
    U+00FF.  An upper-cased name with such a code unit is no key of the
    table. *)
Definition toStateAbbr (s : string) : option string :=
  let t := Str.trim (Str.or_else s "") in
  if negb (Str.truthy t) then Some ""%string
  else if (String.length t =? 2)%nat then toUpperCase t
  else match toUpperCase t with
       | Some u => Some (abbr_of u)
       | None => Some ""%string
       end.

(** Texts of code units below U+0080. *)
Definition ascii_only (s : string) : Prop :=
  forall c, In c (chars s) -> Str.code c < 128.

(** Texts of code units below U+0100: the texts of the model. *)
Definition latin1 (s : string) : Prop :=
  forall c, In c (chars s) -> Str.code c < 256.

(** The rows of [l] whose order date falls into the month bucket [k]. *)
Definition month_bucket (tza : Z) (k : string) (l : list Row) : list Row :=
  filter (fun r => match __orderDate r with
                   | Some d => String.eqb (monthKey tza d) k
                   | None => false
                   end) l.

(** Whether a row reaches the body of the monthly loops, and its key there. *)
Definition has_date (r : Row) : bool :=
  match __orderDate r with
  | Some _ => true
  | None => false
  end.

Definition month_key_of (tza : Z) (r : Row) : string :=
  match __orderDate r with
  | Some d => monthKey tza d
  | None => ""%string
  end.

(** Texts made of decimal digits only. *)
Definition all_digit (s : string) : Prop :=
  forall c, In c (chars s) -> StringToNumber.is_digit c = true.

(** The rows whose region, segment, category and sub-category are named. *)
Definition named_row (r : Row) : Prop :=
  Str.truthy (__region r) = true /\ Str.truthy (__segment r) = true
  /\ Str.truthy (__category r) = true /\ Str.truthy (__subCategory r) = true.

(** *** Sample data *)

(** A row whose order date has the time value [t], whose categorical fields
    all are [k] and whose metrics all are [v]. *)
Definition sample_row_at (t : Z) (k : string) (v : Z) : Row :=
  {| __orderId := k; __orderDate := Some {| tv := Some t |}; __shipDate := None;
     __sales := Num.of_Z v; __profit := Num.of_Z v; __discount := Num.of_Z v;
     __region := k; __segment := k; __category := k; __subCategory := k;
     __shipMode := k; __state := k; __productContainer := k; __productName := k;
     __baseMargin := Num.of_Z v |}.

(** The same, dated at the epoch. *)
Definition sample_row : string -> Z -> Row := sample_row_at 0.

(** A row of June 15, 2012. *)
Definition row_of_2012 : Row := sample_row_at 1339718400000 "A" 1.


(** The row of a record whose sales and profit read ["1e308"]. *)
Definition huge_row : Row :=
  to_row 0 DateParse_iso
    [("Sales"%string, Some "1e308"%string); ("Profit"%string, Some "1e308"%string)].

(** Three dated records of segments B, A and A, with sales 0.3, 0.1 and
    0.2. *)
Definition tenths_raw : list AnyRow :=
  [[("Order Date"%string, Some "2015-03-15"%string); ("Segment"%string, Some "B"%string);
    ("Sales"%string, Some "0.3"%string)];
   [("Order Date"%string, Some "2015-03-15"%string); ("Segment"%string, Some "A"%string);
    ("Sales"%string, Some "0.1"%string)];
   [("Order Date"%string, Some "2015-03-15"%string); ("Segment"%string, Some "A"%string);
    ("Sales"%string, Some "0.2"%string)]].

Definition no_filter : FilterState :=
  {| region := "All"; segment := "All"; category := "All"; stateName := "All";
     shipMode := "All"; yearFrom := Num.of_Z 2010; yearTo := Num.of_Z 2016 |}.

(** Two bounds that no comparison tells apart. *)
Definition same_bound (a b : number) : Prop :=
  forall y, Num.lt y a = Num.lt y b /\ Num.lt a y = Num.lt b y.

(** * Properties *)

(** ** Numbers *)

Lemma lt_of_Z (a b : Z) : Num.lt (Num.of_Z a) (Num.of_Z b) = (a <? b).
Proof.
  unfold Num.lt, Num.of_Z, Qle_bool, inject_Z; simpl.
  rewrite !Z.mul_1_r. rewrite Z.ltb_antisym. reflexivity.
Qed.

Lemma min_of_Z (a b : Z) : Num.min (Num.of_Z a) (Num.of_Z b) = Num.of_Z (Z.min a b).
Proof.
  unfold Num.min. change (Num.of_Z a) with (Fin (inject_Z a)) at 1.
  change (Num.of_Z b) with (Fin (inject_Z b)) at 1.
  cbv iota beta. fold (Num.of_Z a) (Num.of_Z b). rewrite lt_of_Z.
  destruct (Z.ltb_spec b a); [rewrite Z.min_r by lia | rewrite Z.min_l by lia]; reflexivity.
Qed.

Lemma max_of_Z (a b : Z) : Num.max (Num.of_Z a) (Num.of_Z b) = Num.of_Z (Z.max a b).
Proof.
  unfold Num.max. change (Num.of_Z a) with (Fin (inject_Z a)) at 1.
  change (Num.of_Z b) with (Fin (inject_Z b)) at 1.
  cbv iota beta. fold (Num.of_Z a) (Num.of_Z b). rewrite lt_of_Z.
  destruct (Z.ltb_spec a b); [rewrite Z.max_r by lia | rewrite Z.max_l by lia]; reflexivity.
Qed.

Lemma lt_Fin (p q : Q) : Num.lt (Fin p) (Fin q) = true <-> (p < q)%Q.
Proof.
  simpl. rewrite negb_true_iff. split; intro H.
  - apply Qnot_le_lt. intro L. apply Qle_bool_iff in L. congruence.
  - destruct (Qle_bool q p) eqn:E; auto.
    apply Qle_bool_iff in E. exfalso. apply (Qlt_not_le _ _ H E).
Qed.

Lemma lt_Fin_false (p q : Q) : Num.lt (Fin p) (Fin q) = false <-> (q <= p)%Q.
Proof.
  simpl. rewrite negb_false_iff. apply Qle_bool_iff.
Qed.

(** ** Rounding to binary64 *)

Lemma pow2_pos (e : Z) : (0 < Num.pow2 e)%Q.
Proof.
  apply Qpower_0_lt. reflexivity.
Qed.

Lemma pow2_add (a b : Z) : (Num.pow2 (a + b) == Num.pow2 a * Num.pow2 b)%Q.
Proof.
  apply Qpower_plus. discriminate.
Qed.

Lemma pow2_Z (n : Z) : 0 <= n -> (Num.pow2 n == inject_Z (2 ^ n))%Q.
Proof.
  intro H. symmetry. apply (Zpower_Qpower 2 n H).
Qed.

Lemma pow2_sub (a b : Z) : (Num.pow2 (a - b) == Num.pow2 a / Num.pow2 b)%Q.
Proof.
  apply Qpower_minus. discriminate.
Qed.

Lemma nearest_even_floor (q : Q) : Qfloor q <= Num.nearest_even q.
Proof.
  unfold Num.nearest_even.
  destruct (q - inject_Z (Qfloor q) ?= 1 # 2)%Q; [ | lia | lia].
  destruct (Z.even (Qfloor q)); lia.
Qed.

Lemma nearest_even_ge (n : Z) (q : Q) : (inject_Z n <= q)%Q -> n <= Num.nearest_even q.
Proof.
  intro H. apply Qfloor_resp_le in H. rewrite Qfloor_Z in H.
  pose proof (nearest_even_floor q). lia.
Qed.


Lemma ilog2_le (q : Q) : (0 < q)%Q -> (Num.pow2 (Num.ilog2 q) <= q)%Q.
Proof.
  intro P. unfold Num.ilog2.
  destruct (Qle_bool (Num.pow2 (Z.log2 (Qnum q) - Z.log2 (QDen q))) q) eqn:E.
  - apply Qle_bool_iff. exact E.
  - clear E. destruct q as [n d]. cbn [Qnum Qden].
    assert (Hn : 0 < n).
    { unfold Qlt in P. simpl in P. lia. }
    pose proof (Z.log2_spec n Hn) as [A _].
    pose proof (Z.log2_spec (Zpos d) (Pos2Z.is_pos d)) as [_ B].
    pose proof (Z.log2_nonneg n) as An. pose proof (Z.log2_nonneg (Zpos d)) as Bn.
    set (a := Z.log2 n) in *. set (b := Z.log2 (Zpos d)) in *.
    replace (a - b - 1) with (a - Z.succ b) by lia.
    rewrite pow2_sub, !pow2_Z by lia.
    assert (T : 0 < 2 ^ Z.succ b) by (apply Z.pow_pos_nonneg; lia).
    assert (U : 0 <= 2 ^ a) by (apply Z.pow_nonneg; lia).
    apply Qle_shift_div_r.
    + unfold Qlt, inject_Z. cbn [Qnum Qden]. lia.
    + unfold Qle, Qmult, inject_Z. cbn [Qnum Qden]. nia.
Qed.

Lemma ilog2_lt (q : Q) : (0 < q)%Q -> (q < Num.pow2 (Num.ilog2 q + 1))%Q.
Proof.
  intro P. unfold Num.ilog2.
  destruct (Qle_bool (Num.pow2 (Z.log2 (Qnum q) - Z.log2 (QDen q))) q) eqn:E.
  - clear E. destruct q as [n d]. cbn [Qnum Qden].
    assert (Hn : 0 < n).
    { unfold Qlt in P. simpl in P. lia. }
    pose proof (Z.log2_spec n Hn) as [_ A].
    pose proof (Z.log2_spec (Zpos d) (Pos2Z.is_pos d)) as [B _].
    pose proof (Z.log2_nonneg n) as An. pose proof (Z.log2_nonneg (Zpos d)) as Bn.
    set (a := Z.log2 n) in *. set (b := Z.log2 (Zpos d)) in *.
    replace (a - b + 1) with (Z.succ a - b) by lia.
    rewrite pow2_sub, !pow2_Z by lia.
    assert (T : 0 < 2 ^ b) by (apply Z.pow_pos_nonneg; lia).
    apply Qlt_shift_div_l.
    + unfold Qlt, inject_Z. cbn [Qnum Qden]. lia.
    + unfold Qlt, Qmult, inject_Z. cbn [Qnum Qden]. nia.
  - replace (Z.log2 (Qnum q) - Z.log2 (QDen q) - 1 + 1)
      with (Z.log2 (Qnum q) - Z.log2 (QDen q)) by lia.
    destruct (Qlt_le_dec q (Num.pow2 (Z.log2 (Qnum q) - Z.log2 (QDen q)))) as [L | L];
      [exact L | ].
    apply Qle_bool_iff in L. congruence.
Qed.

Lemma pow2_le (a b : Z) : a <= b -> (Num.pow2 a <= Num.pow2 b)%Q.
Proof.
  intro H. apply Qpower_le_compat_l; [exact H | discriminate].
Qed.

Lemma on_grid_zero : on_grid 0.
Proof.
  exists 0. reflexivity.
Qed.

Lemma on_grid_Qeq (p q : Q) : (p == q)%Q -> on_grid p -> on_grid q.
Proof.
  intros E [m H]. exists m. rewrite <- E. exact H.
Qed.

Lemma on_grid_sub (p q : Q) : on_grid p -> on_grid q -> on_grid (p - q).
Proof.
  intros [m Hm] [n Hn]. exists (m - n). rewrite Hm, Hn.
  unfold Z.sub. rewrite inject_Z_plus, inject_Z_opp. ring.
Qed.

Lemma on_grid_opp (q : Q) : on_grid q -> on_grid (- q).
Proof.
  intros [m Hm]. exists (- m). rewrite Hm, inject_Z_opp. ring.
Qed.

(** A positive multiple of [2^-1074] is at least [2^-1074]. *)
Lemma on_grid_pos (q : Q) : on_grid q -> (0 < q)%Q -> (Num.pow2 (-1074) <= q)%Q.
Proof.
  intros [m Hm] P. rewrite Hm in *. pose proof (pow2_pos (-1074)) as T.
  assert (M : 1 <= m).
  { destruct (Z_lt_le_dec m 1) as [L | L]; [ | exact L]. exfalso.
    assert (N : (inject_Z m <= 0)%Q).
    { unfold Qle, inject_Z. cbn [Qnum Qden]. lia. }
    apply (Qlt_irrefl 0). apply (Qlt_le_trans _ _ _ P).
    rewrite <- (Qmult_0_l (Num.pow2 (-1074))).
    apply Qmult_le_compat_r; [exact N | apply Qlt_le_weak; exact T]. }
  rewrite <- (Qmult_1_l (Num.pow2 (-1074))) at 1.
  apply Qmult_le_compat_r; [ | apply Qlt_le_weak; exact T].
  unfold Qle, inject_Z. cbn [Qnum Qden]. lia.
Qed.

(** What rounding a positive value gives: an infinity, or a non-negative
    multiple of a power of two from [2^-1074] on, which is not zero when the
    value is itself a multiple of [2^-1074]. *)
Lemma round_pos_cases (q : Q) :
  (0 < q)%Q ->
  Num.round_pos q = PInf
  \/ exists k e : Z,
       -1074 <= e /\ 0 <= k /\ (on_grid q -> 1 <= k)
       /\ Num.round_pos q = Fin (Qred (inject_Z k * Num.pow2 e)).
Proof.
  intro P. unfold Num.round_pos. cbv zeta.
  set (e := Z.max (Num.ilog2 q) (-1022)).
  set (ulp := Num.pow2 (e - 52)).
  set (k := Num.nearest_even (q / ulp)).
  destruct (Qle_bool (Num.pow2 1024) (inject_Z k * ulp)); [left; reflexivity | ].
  right. exists k, (e - 52).
  pose proof (pow2_pos (e - 52)) as U. fold ulp in U.
  split; [subst e; lia | ]. split; [ | split; [ | reflexivity]].
  - apply nearest_even_ge. apply Qle_shift_div_l; [exact U | ].
    rewrite Qmult_0_l. apply Qlt_le_weak. exact P.
  - intro G. apply nearest_even_ge. apply Qle_shift_div_l; [exact U | ].
    rewrite Qmult_1_l. subst ulp e.
    destruct (Z.max_spec (Num.ilog2 q) (-1022)) as [[L ->] | [L ->]].
    + exact (on_grid_pos q G P).
    + apply (Qle_trans _ (Num.pow2 (Num.ilog2 q))); [apply pow2_le; lia | ].
      apply ilog2_le. exact P.
Qed.

Lemma on_grid_scaled (k e : Z) : -1074 <= e -> on_grid (inject_Z k * Num.pow2 e).
Proof.
  intro H. exists (k * 2 ^ (e + 1074)).
  replace e with ((e + 1074) + (-1074)) at 1 by lia.
  rewrite pow2_add, pow2_Z by lia. rewrite inject_Z_mult. ring.
Qed.

Lemma round_compat (p q : Q) : (p == q)%Q -> Num.round p = Num.round q.
Proof.
  intro E. unfold Num.round.
  rewrite (Qred_complete _ _ E).
  assert (E' : (- p == - q)%Q) by (rewrite E; reflexivity).
  rewrite (Qred_complete _ _ E'). reflexivity.
Qed.

Lemma round_zero (q : Q) : (q == 0)%Q -> Num.round q = Fin 0.
Proof.
  intro E. rewrite (round_compat _ _ E). reflexivity.
Qed.

(** An exact result rounds to a value of binary64 or to an infinity. *)
Lemma round_rounded (q : Q) : rounded (Num.round q).
Proof.
  unfold Num.round.
  destruct (Qred q ?= 0)%Q eqn:C.
  - exact on_grid_zero.
  - apply Qlt_alt in C. rewrite Qred_correct in C.
    assert (P : (0 < Qred (- q))%Q) by (rewrite Qred_correct; lra).
    destruct (round_pos_cases _ P) as [-> | (k & e & He & _ & _ & ->)]; [exact I | ].
    cbn [Num.neg rounded]. apply (on_grid_Qeq (- (inject_Z k * Num.pow2 e))).
    + rewrite !Qred_correct. reflexivity.
    + apply on_grid_opp, on_grid_scaled. exact He.
  - apply Qgt_alt in C.
    destruct (round_pos_cases _ C) as [-> | (k & e & He & _ & _ & ->)]; [exact I | ].
    cbn [rounded]. apply (on_grid_Qeq (inject_Z k * Num.pow2 e)).
    + rewrite Qred_correct. reflexivity.
    + apply on_grid_scaled. exact He.
Qed.

(** Rounding keeps the sign of a multiple of [2^-1074]: no difference of
    two values of binary64 rounds to zero unless it is zero. *)
Lemma round_sign (q : Q) :
  on_grid q -> Num.lt Num.zero (Num.round q) = negb (Qle_bool q 0).
Proof.
  intro G. unfold Num.round.
  destruct (Qred q ?= 0)%Q eqn:C.
  - apply Qeq_alt in C. rewrite Qred_correct in C.
    assert (L : Qle_bool q 0 = true) by (apply Qle_bool_iff; lra).
    rewrite L. reflexivity.
  - apply Qlt_alt in C. rewrite Qred_correct in C.
    assert (L : Qle_bool q 0 = true) by (apply Qle_bool_iff; lra).
    rewrite L. cbn [negb].
    assert (P : (0 < Qred (- q))%Q) by (rewrite Qred_correct; lra).
    destruct (round_pos_cases _ P) as [-> | (k & e & _ & Hk & _ & ->)];
      [reflexivity | ].
    cbn [Num.neg]. unfold Num.zero. apply lt_Fin_false.
    rewrite !Qred_correct.
    assert (T : (0 <= inject_Z k * Num.pow2 e)%Q).
    { apply Qmult_le_0_compat.
      - unfold Qle, inject_Z. cbn [Qnum Qden]. lia.
      - apply Qlt_le_weak, pow2_pos. }
    lra.
  - apply Qgt_alt in C.
    assert (C' : (0 < q)%Q) by (rewrite Qred_correct in C; exact C).
    assert (L : Qle_bool q 0 = false).
    { destruct (Qle_bool q 0) eqn:E; [ | reflexivity].
      apply Qle_bool_iff in E. lra. }
    rewrite L. cbn [negb].
    destruct (round_pos_cases _ C) as [-> | (k & e & _ & _ & Hk & ->)];
      [reflexivity | ].
    unfold Num.zero. apply lt_Fin. rewrite Qred_correct.
    assert (K : 1 <= k).
    { apply Hk. apply (on_grid_Qeq q); [ | exact G]. rewrite Qred_correct. reflexivity. }
    pose proof (pow2_pos e) as T.
    apply (Qlt_le_trans _ (1 * Num.pow2 e)); [lra | ].
    apply Qmult_le_compat_r; [ | lra].
    unfold Qle, inject_Z. cbn [Qnum Qden]. lia.
Qed.

(** Rounding at the edges of binary64: the largest finite value is
    [2^1024 - 2^971], and half a step beyond it rounds to an infinity; the
    smallest positive value is [2^-1074], half of it rounds to zero and
    three halves of it to its double, ties going to the even significand;
    [2^53 + 1] lies half way between two values and rounds to [2^53]. *)
Lemma round_at_the_edges :
  Num.round (inject_Z (2 ^ 1024 - 2 ^ 971)) = Fin (inject_Z (2 ^ 1024 - 2 ^ 971))
  /\ Num.round (inject_Z (2 ^ 1024 - 2 ^ 970)) = PInf
  /\ Num.round (inject_Z (2 ^ 1024 - 2 ^ 970 - 1)) = Fin (inject_Z (2 ^ 1024 - 2 ^ 971))
  /\ Num.round (1 # 2 ^ 1074) = Fin (1 # 2 ^ 1074)
  /\ Num.round (1 # 2 ^ 1075) = Fin 0
  /\ Num.round (3 # 2 ^ 1075) = Fin (1 # 2 ^ 1073)
  /\ Num.round (inject_Z (2 ^ 53 + 1)) = Fin (inject_Z (2 ^ 53))
  /\ Num.round (inject_Z (2 ^ 53 + 3)) = Fin (inject_Z (2 ^ 53 + 4))
  /\ Num.round (- (1 # 10)) = Fin (- 3602879701896397 # 36028797018963968).
Proof.
  repeat split; vm_compute; reflexivity.
Qed.

(** ** Bounds *)

Lemma Qle_bool_compat_l (p q r : Q) : (p == q)%Q -> Qle_bool p r = Qle_bool q r.
Proof.
  intro E. apply eq_true_iff_eq. rewrite !Qle_bool_iff. rewrite E. tauto.
Qed.

Lemma Qle_bool_compat_r (p q r : Q) : (p == q)%Q -> Qle_bool r p = Qle_bool r q.
Proof.
  intro E. apply eq_true_iff_eq. rewrite !Qle_bool_iff. rewrite E. tauto.
Qed.

Lemma same_bound_Qeq (p q : Q) : (p == q)%Q -> same_bound (Fin p) (Fin q).
Proof.
  intros E y. destruct y as [ | | | r]; simpl; auto.
  rewrite (Qle_bool_compat_l p q r E), (Qle_bool_compat_r p q r E). auto.
Qed.

Lemma same_bound_refl (a : number) : same_bound a a.
Proof. intro y. auto. Qed.

Lemma min_comm (a b : number) : same_bound (Num.min a b) (Num.min b a).
Proof.
  destruct a as [ | | | p], b as [ | | | q]; simpl; try apply same_bound_refl.
  destruct (Qle_bool p q) eqn:E1, (Qle_bool q p) eqn:E2; simpl;
    try apply same_bound_refl.
  - apply same_bound_Qeq. apply Qle_bool_iff in E1, E2. apply Qle_antisym; assumption.
  - exfalso. destruct (Qlt_le_dec p q) as [L | L].
    + apply Qlt_le_weak in L. apply Qle_bool_iff in L. congruence.
    + apply Qle_bool_iff in L. congruence.
Qed.

Lemma max_comm (a b : number) : same_bound (Num.max a b) (Num.max b a).
Proof.
  destruct a as [ | | | p], b as [ | | | q]; simpl; try apply same_bound_refl.
  destruct (Qle_bool p q) eqn:E1, (Qle_bool q p) eqn:E2; simpl;
    try apply same_bound_refl.
  - apply same_bound_Qeq. apply Qle_bool_iff in E1, E2. apply Qle_antisym; assumption.
  - exfalso. destruct (Qlt_le_dec p q) as [L | L].
    + apply Qlt_le_weak in L. apply Qle_bool_iff in L. congruence.
    + apply Qle_bool_iff in L. congruence.
Qed.

(** ** Filter engine *)

Lemma rejects_false (sel field : string) :
  rejects sel field = false <-> admits sel field.
Proof.
  unfold rejects, admits.
  destruct (String.eqb_spec sel "All"), (String.eqb_spec field sel); simpl;
    split; intro H; auto; try discriminate; destruct H; congruence.
Qed.

Lemma passes_same_bounds (tza : Z) (st st' : FilterState) (y1 y2 z1 z2 : number) (r : Row) :
  region st = region st' -> segment st = segment st' ->
  category st = category st' -> stateName st = stateName st' ->
  shipMode st = shipMode st' ->
  same_bound y1 z1 -> same_bound y2 z2 ->
  passes tza st y1 y2 r = passes tza st' z1 z2 r.
Proof.
  intros E1 E2 E3 E4 E5 B1 B2. unfold passes, Num.gt.
  rewrite E1, E2, E3, E4, E5.
  set (y := match __orderDate r with Some d => getFullYear tza d | None => NaN end).
  destruct (B1 y) as [-> _]. destruct (B2 y) as [_ ->]. reflexivity.
Qed.

Lemma passes_dated (tza : Z) (st : FilterState) (y1 y2 : number) (r : Row) :
  passes tza st y1 y2 r = true ->
  exists d y, __orderDate r = Some d /\ fullYear tza d = Some y.
Proof.
  unfold passes, getFullYear. destruct (__orderDate r) as [d | ]; simpl.
  - destruct (fullYear tza d) as [y | ] eqn:E; simpl; [intros _; exists d, y; auto | discriminate].
  - discriminate.
Qed.

Lemma passes_iff (tza : Z) (st : FilterState) (y1 y2 : number) (r : Row) :
  passes tza st y1 y2 r = true <->
  (exists d y, __orderDate r = Some d /\ fullYear tza d = Some y
               /\ Num.lt (Num.of_Z y) y1 = false /\ Num.lt y2 (Num.of_Z y) = false)
  /\ admits (region st) (__region r) /\ admits (segment st) (__segment r)
  /\ admits (category st) (__category r) /\ admits (stateName st) (__state r)
  /\ admits (shipMode st) (__shipMode r).
Proof.
  rewrite <- !rejects_false. unfold passes, Num.gt, getFullYear.
  destruct (__orderDate r) as [d | ].
  - destruct (fullYear tza d) as [y | ] eqn:Ey; cbn [Num.of_int].
    + change (Num.isFinite (Num.of_Z y)) with true. cbn [negb].
      destruct (Num.lt (Num.of_Z y) y1) eqn:L1, (Num.lt y2 (Num.of_Z y)) eqn:L2,
        (rejects (region st) (__region r)), (rejects (segment st) (__segment r)),
        (rejects (category st) (__category r)), (rejects (stateName st) (__state r)),
        (rejects (shipMode st) (__shipMode r)); cbn [orb];
        (split;
         [ intro H; try discriminate H; repeat split; exists d, y; auto
         | intros ((d' & y' & Hd & Hy & H1 & H2) & H3 & H4 & H5 & H6 & H7);
           try discriminate; inversion Hd; subst d'; rewrite Ey in Hy;
           inversion Hy; subst y'; congruence ]).
    + cbn [Num.isFinite negb]. split; [discriminate | ].
      intros ((d' & y' & Hd & Hy & _) & _). inversion Hd; subst d'. congruence.
  - cbn [Num.isFinite negb]. split; [discriminate | ].
    intros ((d' & y' & Hd & _) & _). discriminate.
Qed.

(** C1.  A row passes the filter exactly when its order date has a year,
    that year lies between the smaller and the larger of the two bounds
    (both included), and each of the five selectors is ["All"] or equal,
    as a string, to the row's field; a row without order date passes under
    no filter state whatever.  A row of year 2012 is left out by the range
    2013..2016 and kept by the bounds 2016, 2012; its region ["A"] does not
    match the selector ["a"]. *)
Theorem filter_predicate (tza : Z) (all : list Row) (rg sg cg sn sm : string)
  (from to : Z) (r : Row) :
  let st := {| region := rg; segment := sg; category := cg; stateName := sn;
               shipMode := sm; yearFrom := Num.of_Z from; yearTo := Num.of_Z to |} in
  (In r (filtered tza all st) <->
     In r all
     /\ (exists d y, __orderDate r = Some d /\ fullYear tza d = Some y
                     /\ Z.min from to <= y <= Z.max from to)
     /\ admits rg (__region r) /\ admits sg (__segment r)
     /\ admits cg (__category r) /\ admits sn (__state r)
     /\ admits sm (__shipMode r))
  /\ (forall st' : FilterState,
        __orderDate r = None -> ~ In r (filtered tza all st'))
  /\ filtered 0 [row_of_2012]
       {| region := "All"; segment := "All"; category := "All"; stateName := "All";
          shipMode := "All"; yearFrom := Num.of_Z 2013; yearTo := Num.of_Z 2016 |}
     = []
  /\ filtered 0 [row_of_2012]
       {| region := "All"; segment := "All"; category := "All"; stateName := "All";
          shipMode := "All"; yearFrom := Num.of_Z 2016; yearTo := Num.of_Z 2012 |}
     = [row_of_2012]
  /\ filtered 0 [row_of_2012]
       {| region := "a"; segment := "All"; category := "All"; stateName := "All";
          shipMode := "All"; yearFrom := Num.of_Z 2012; yearTo := Num.of_Z 2012 |}
     = [].
Proof.
  intro st. split; [ | split; [ | repeat split; vm_compute; reflexivity]].
  - unfold filtered. rewrite filter_In, passes_iff. subst st.
    cbn [yearFrom yearTo region segment category stateName shipMode].
    rewrite min_of_Z, max_of_Z.
    split.
    + intros (Hin & (d & y & Hd & Hy & H1 & H2) & Hs). split; [exact Hin | ].
      split; [ | exact Hs]. exists d, y. rewrite lt_of_Z in H1, H2.
      apply Z.ltb_ge in H1, H2. auto.
    + intros (Hin & (d & y & Hd & Hy & H1) & Hs). split; [exact Hin | ].
      split; [ | exact Hs]. exists d, y. rewrite !lt_of_Z.
      repeat split; auto; apply Z.ltb_ge; lia.
  - intros st' Hnone Hin. unfold filtered in Hin. apply filter_In in Hin.
    destruct Hin as [_ Hp]. apply passes_dated in Hp.
    destruct Hp as (d & y & Hd & _). congruence.
Qed.

(** C8.  Exchanging the two year bounds leaves the filtered rows unchanged,
    whatever the bounds are. *)
Theorem filter_bounds_exchange (tza : Z) (all : list Row) (rg sg cg sn sm : string)
  (a b : number) :
  filtered tza all {| region := rg; segment := sg; category := cg; stateName := sn;
                      shipMode := sm; yearFrom := a; yearTo := b |}
  = filtered tza all {| region := rg; segment := sg; category := cg; stateName := sn;
                        shipMode := sm; yearFrom := b; yearTo := a |}.
Proof.
  unfold filtered. cbn [yearFrom yearTo]. apply filter_ext. intro r.
  apply passes_same_bounds; try reflexivity.
  - apply min_comm.
  - apply max_comm.
Qed.

(** ** Ingestion boundary *)

Lemma present_In (data : list (option AnyRow)) (r : AnyRow) :
  In r (present data) <-> In (Some r) data.
Proof.
  induction data as [ | [o | ] t IH]; simpl.
  - tauto.
  - rewrite IH. split; intros [H | H]; auto; left; congruence.
  - rewrite IH. split; [auto | intros [H | H]; [discriminate | auto]].
Qed.

(** C9, as the code has it.  A record is kept exactly when it has more than
    one key, whatever the values under the keys are. *)
Theorem ingest_keeps_by_key_count (data : list (option AnyRow)) (r : AnyRow) :
  In r (ingest data) <->
  In (Some r) data /\ (1 < List.length (Obj.keys r))%nat.
Proof.
  unfold ingest. rewrite present_In, filter_In. simpl.
  rewrite Nat.ltb_lt. tauto.
Qed.

(** C9, as stated, fails: a record with two keys of which one holds a text
    and the other the empty text has one populated key and is kept. *)
Lemma ingest_keeps_one_populated :
  ~ (forall (data : list (option AnyRow)) (r : AnyRow),
        In (Some r) data -> (populated r <= 1)%nat -> ~ In r (ingest data)).
Proof.
  intro H.
  apply (H [Some [("Order ID"%string, Some "1"%string); ("Sales"%string, Some ""%string)]]
           [("Order ID"%string, Some "1"%string); ("Sales"%string, Some ""%string)]).
  - left. reflexivity.
  - vm_compute. apply le_n.
  - vm_compute. left. reflexivity.
Qed.

(** ** Order count *)

Lemma JSSet_has_In (s : JSSet.t) (a : string) : JSSet.has s a = true <-> In a s.
Proof.
  unfold JSSet.has. rewrite existsb_exists. split.
  - intros (b & Hb & E). apply String.eqb_eq in E. subst. exact Hb.
  - intro H. exists a. split; [exact H | apply String.eqb_refl].
Qed.

Lemma JSSet_fold_spec (l : list string) (s : JSSet.t) :
  NoDup s ->
  NoDup (fold_left JSSet.add l s)
  /\ (forall a, In a (fold_left JSSet.add l s) <-> In a s \/ In a l).
Proof.
  revert s. induction l as [ | b t IH]; intros s Hs; simpl.
  - split; [exact Hs | intro a; tauto].
  - assert (Hs' : NoDup (JSSet.add s b)).
    { unfold JSSet.add. destruct (JSSet.has s b) eqn:E; [exact Hs | ].
      apply NoDup_app; [exact Hs | repeat constructor; simpl; tauto | ].
      intros a Ha [Hb | []]. subst a. apply JSSet_has_In in Ha. congruence. }
    destruct (IH _ Hs') as [N I]. split; [exact N | ].
    intro a. rewrite I. unfold JSSet.add.
    destruct (JSSet.has s b) eqn:E.
    + apply JSSet_has_In in E. split; [tauto | ].
      intros [H | [H | H]]; auto. subst. auto.
    + rewrite in_app_iff. simpl. tauto.
Qed.

(** C7.  The order count is the number of distinct non-empty order
    identifiers of the filtered rows, and the number of rows when there is
    no such identifier. *)
Theorem order_count (filtered : list Row) :
  exists ids : list string,
    NoDup ids
    /\ (forall i, In i ids <-> i <> ""%string /\ In i (map __orderId filtered))
    /\ k_orders (kpis filtered)
       = match ids with
         | [] => Z.of_nat (List.length filtered)
         | _ => Z.of_nat (List.length ids)
         end.
Proof.
  exists (JSSet.of_list (filter Str.truthy (map __orderId filtered))).
  unfold JSSet.of_list.
  destruct (JSSet_fold_spec (filter Str.truthy (map __orderId filtered)) [])
    as [N I]; [constructor | ].
  split; [exact N | ]. split.
  - intro i. rewrite I, filter_In. simpl. unfold Str.truthy.
    destruct i; split; intros H; try tauto.
    + destruct H as [[] | [_ H]]. discriminate.
    + split; [discriminate | tauto].
  - cbn [kpis k_orders]. unfold orders_of, JSSet.of_list, JSSet.size.
    destruct (fold_left JSSet.add (filter Str.truthy (map __orderId filtered)) []);
      reflexivity.
Qed.

(** ** Numeric coercion *)

Lemma toNumber_finite (v : option string) : Num.isFinite (toNumber v) = true.
Proof.
  destruct v as [text | ]; simpl; [ | reflexivity].
  destruct (Num.isFinite (StringToNumber.Number (Str.remove strip_class text))) eqn:E;
    [exact E | reflexivity].
Qed.





(** [Number] reads more than plain decimals: an exponent, and integers
    with a radix prefix. *)
Lemma toNumber_other_literals :
  toNumber (Some "1e3"%string) = Fin 1000
  /\ toNumber (Some "-5.25"%string) = Fin (-21 # 4)
  /\ toNumber (Some "0x1F"%string) = Fin 31
  /\ toNumber (Some "Infinity"%string) = Fin 0
  /\ toNumber (Some "1e999"%string) = Fin 0.
Proof. repeat split; vm_compute; reflexivity. Qed.

(** ** Row normaliser *)

Lemma or_zero_finite (n : number) :
  Num.isFinite n = true -> Num.isFinite (Num.or_zero n) = true.
Proof.
  intro H. unfold Num.or_zero. destruct (Num.truthy n); [exact H | reflexivity].
Qed.

Lemma to_row_finite (tza : Z) (parse : string -> option Z) (r : AnyRow) :
  finite_row (to_row tza parse r).
Proof.
  unfold finite_row, to_row; cbn [__sales __profit __discount __baseMargin].
  repeat split; try apply or_zero_finite; apply toNumber_finite.
Qed.

Lemma rows_finite (tza : Z) (parse : string -> option Z) (raw : list AnyRow) :
  Forall finite_row (rows tza parse raw).
Proof.
  unfold rows. apply Forall_forall. intros r H. apply in_map_iff in H.
  destruct H as (a & <- & _). apply to_row_finite.
Qed.

Lemma filtered_incl (tza : Z) (all : list Row) (st : FilterState) (r : Row) :
  In r (filtered tza all st) -> In r all.
Proof.
  unfold filtered. intro H. apply filter_In in H. tauto.
Qed.

Lemma filtered_finite (tza : Z) (all : list Row) (st : FilterState) :
  Forall finite_row all -> Forall finite_row (filtered tza all st).
Proof.
  rewrite !Forall_forall. intros H r Hr. apply H. eapply filtered_incl. exact Hr.
Qed.

(** ** Scatter projection *)

Lemma scatter_of_finite (l : list Row) :
  Forall finite_row l ->
  profitVsBaseMargin l
  = map (fun r => {| px := __baseMargin r; py := __profit r; cat := __category r |}) l.
Proof.
  unfold profitVsBaseMargin. induction 1 as [ | r l Hr _ IH]; simpl.
  - reflexivity.
  - destruct Hr as (_ & Hp & _ & Hb). rewrite Hb, Hp. simpl. rewrite IH. reflexivity.
Qed.

(** C10.  Over the filtered rows of a normalised dataset the scatter
    projection is one point per row, in row order: the finiteness test
    rejects nothing, the normaliser having made base margin and profit
    finite. *)
Theorem scatter_one_point_per_row (tza : Z) (parse : string -> option Z)
  (raw : list AnyRow) (st : FilterState) :
  let fl := filtered tza (rows tza parse raw) st in
  profitVsBaseMargin fl
  = map (fun r => {| px := __baseMargin r; py := __profit r; cat := __category r |}) fl
  /\ List.length (profitVsBaseMargin fl) = List.length fl.
Proof.
  intro fl.
  assert (E : profitVsBaseMargin fl
              = map (fun r => {| px := __baseMargin r; py := __profit r;
                                 cat := __category r |}) fl).
  { apply scatter_of_finite. apply filtered_finite. apply rows_finite. }
  split; [exact E | ]. rewrite E. apply length_map.
Qed.

(** ** Field resolver *)

Lemma get_has (r : AnyRow) (k v : string) :
  Obj.get r k = Some v -> Obj.has r k = true.
Proof.
  unfold Obj.has. induction r as [ | [k' w] r IH]; simpl; [discriminate | ].
  destruct (String.eqb k' k); simpl; auto.
Qed.

Lemma pick_value_text_at (r : AnyRow) (k : string) : pick_value r k = text_at r k.
Proof.
  unfold pick_value, text_at. destruct (Obj.get r k) as [v | ] eqn:E.
  - rewrite (get_has r k v E). destruct (String.eqb (Str.trim v) ""); reflexivity.
  - destruct (Obj.has r k); reflexivity.
Qed.

Lemma pick_exact_first_some (r : AnyRow) (keys : list string) :
  pick_exact r keys = first_some (text_at r) keys.
Proof.
  induction keys as [ | k ks IH]; simpl; [reflexivity | ].
  rewrite pick_value_text_at, IH. reflexivity.
Qed.

Lemma JSMap_get_set {V : Type} (m : JSMap.t V) (k q : string) (v : V) :
  JSMap.get (JSMap.set m k v) q
  = if String.eqb k q then Some v else JSMap.get m q.
Proof.
  induction m as [ | [k' v'] m IH]; simpl.
  - reflexivity.
  - destruct (String.eqb_spec k' k) as [-> | N]; simpl.
    + destruct (String.eqb k q); reflexivity.
    + rewrite IH. destruct (String.eqb_spec k' q) as [-> | N'].
      * destruct (String.eqb_spec k q); [congruence | reflexivity].
      * reflexivity.
Qed.

Lemma find_app {A : Type} (f : A -> bool) (l1 l2 : list A) :
  find f (l1 ++ l2) = match find f l1 with
                      | Some a => Some a
                      | None => find f l2
                      end.
Proof.
  induction l1 as [ | a l1 IH]; simpl; [reflexivity | ].
  destruct (f a); [reflexivity | exact IH].
Qed.

(** The map built from the keys sends a normal form to the last key that
    has it. *)
Lemma pick_map_fold (l : list string) (m : JSMap.t string) (n : string) :
  JSMap.get (fold_left (fun map kk => JSMap.set map (Str.trim (Str.toLowerCase kk)) kk) l m) n
  = match find (fun kk => String.eqb (norm kk) n) (rev l) with
    | Some kk => Some kk
    | None => JSMap.get m n
    end.
Proof.
  revert m. induction l as [ | a l IH]; intro m; simpl; [reflexivity | ].
  rewrite IH, find_app. simpl.
  destruct (find (fun kk => String.eqb (norm kk) n) (rev l)); [reflexivity | ].
  rewrite JSMap_get_set. fold (norm a). destruct (String.eqb (norm a) n); reflexivity.
Qed.

Lemma pick_loose_first_some (r : AnyRow) (keys : list string) :
  pick_loose r (pick_map r) keys = first_some (resolve_loose r) keys.
Proof.
  induction keys as [ | want ks IH]; simpl; [reflexivity | ].
  rewrite IH. unfold pick_map. rewrite pick_map_fold. simpl.
  unfold resolve_loose, key_like, text_at. fold (norm want).
  destruct (find (fun kk => String.eqb (norm kk) (norm want)) (rev (Obj.keys r)))
    as [real | ]; [ | reflexivity].
  destruct (Str.truthy real); [ | reflexivity].
  destruct (Obj.get r real) as [v | ]; [ | reflexivity].
  destruct (String.eqb (Str.trim v) ""); reflexivity.
Qed.

Lemma pick_is_resolve (r : AnyRow) (keys : list string) : pick r keys = resolve r keys.
Proof.
  unfold pick, resolve.
  rewrite pick_exact_first_some, pick_loose_first_some. reflexivity.
Qed.

(** C6, as the code has it.  For aliases none of which names a property
    that every record inherits, [pick] returns the trimmed text of the
    first alias that has a non-blank text under the key spelled exactly like
    it; failing that, of the first alias for which the last key of the
    record equal to it up to letter case and surrounding white space is not
    the empty key and has a non-blank text; failing that, the empty text. *)
Theorem pick_resolves (r : AnyRow) (keys : list string) :
  own_aliases keys = true -> pick r keys = resolve r keys.
Proof.
  intros _. apply pick_is_resolve.
Qed.

(** The record with the one key ["order date"] and the text
    [" 2014-01-05 "] gives ["2014-01-05"] for the aliases ["Order Date"],
    ["order date"], and so does the record whose key is ["ORDER DATE "]. *)
Lemma pick_resolves_sample :
  pick [("order date"%string, Some " 2014-01-05 "%string)]
       ["Order Date"%string; "order date"%string]
  = "2014-01-05"%string
  /\ pick [("ORDER DATE "%string, Some " 2014-01-05 "%string)]
          ["Order Date"%string; "order date"%string]
     = "2014-01-05"%string.
Proof.
  split.
  - rewrite (pick_resolves [("order date"%string, Some " 2014-01-05 "%string)]
                           ["Order Date"%string; "order date"%string] eq_refl).
    vm_compute. reflexivity.
  - rewrite (pick_resolves [("ORDER DATE "%string, Some " 2014-01-05 "%string)]
                           ["Order Date"%string; "order date"%string] eq_refl).
    vm_compute. reflexivity.
Defined.

(** C6, as stated, fails: when two keys differ by letter case or white space
    only, the later one alone stands for the alias, also when it is blank
    and the earlier one is not. *)
Lemma pick_misses_shadowed_key :
  ~ (forall (r : AnyRow) (keys : list string), pick r keys = resolve_spec r keys).
Proof.
  intro H.
  specialize (H [("SALES"%string, Some "10"%string); ("sales "%string, Some ""%string)]
                ["Sales"%string]).
  vm_compute in H. discriminate H.
Qed.

(** The empty key stands for no alias in the second pass, although it
    equals a blank alias once both are trimmed. *)
Lemma pick_skips_empty_key :
  pick [(""%string, Some "x"%string)] [" "%string] = ""%string
  /\ resolve_spec [(""%string, Some "x"%string)] [" "%string] = "x"%string.
Proof. split; vm_compute; reflexivity. Qed.

Lemma find_rev_unique {A : Type} (f : A -> string) (n : string) (l : list A) :
  NoDup (map f l) ->
  find (fun a => String.eqb (f a) n) (rev l) = find (fun a => String.eqb (f a) n) l.
Proof.
  induction l as [ | a l IH]; simpl; [reflexivity | ].
  intro N. inversion N as [ | ? ? Ha Nl]; subst.
  rewrite find_app, (IH Nl). simpl.
  destruct (String.eqb_spec (f a) n) as [E | E].
  - destruct (find (fun a0 => String.eqb (f a0) n) l) as [b | ] eqn:F; [ | reflexivity].
    apply find_some in F. destruct F as [Hb Eb]. apply String.eqb_eq in Eb.
    exfalso. apply Ha. rewrite E, <- Eb. apply in_map. exact Hb.
  - destruct (find (fun a0 => String.eqb (f a0) n) l); reflexivity.
Qed.

Lemma get_empty_key_free (r : AnyRow) :
  ~ In ""%string (Obj.keys r) -> Obj.get r "" = None.
Proof.
  induction r as [ | [k v] r IH]; simpl; [reflexivity | ].
  intro N. destruct (String.eqb_spec k ""); [tauto | apply IH; tauto].
Qed.

Lemma resolve_any_unique (r : AnyRow) (want : string) :
  NoDup (map norm (Obj.keys r)) -> ~ In ""%string (Obj.keys r) ->
  resolve_any r want = resolve_loose r want.
Proof.
  intros N E. unfold resolve_loose, key_like. rewrite (find_rev_unique norm _ _ N).
  unfold resolve_any.
  assert (G : forall l, NoDup (map norm l) -> ~ In ""%string l ->
            first_some (fun kk => if String.eqb (norm kk) (norm want)
                                  then text_at r kk else None) l
            = match match find (fun kk => String.eqb (norm kk) (norm want)) l with
                    | Some real => if Str.truthy real then Some real else None
                    | None => None
                    end with
              | Some real => text_at r real
              | None => None
              end).
  { induction l as [ | a l IH]; simpl; [reflexivity | ].
    intros Nl El. inversion Nl as [ | ? ? Ha Nl']; subst.
    destruct (String.eqb_spec (norm a) (norm want)) as [Ea | Ea].
    - destruct a as [ | c a]; [tauto | ]. simpl.
      destruct (text_at r (String c a)) eqn:T; [reflexivity | ].
      rewrite IH by tauto.
      destruct (find (fun kk => String.eqb (norm kk) (norm want)) l) as [b | ] eqn:F;
        [ | reflexivity].
      apply find_some in F. destruct F as [Hb Eb]. apply String.eqb_eq in Eb.
      exfalso. apply Ha. rewrite Ea, <- Eb. apply in_map. exact Hb.
    - apply IH; tauto. }
  apply G; assumption.
Qed.

(** On a record whose keys stay distinct when letter case and surrounding
    white space are ignored, and none of which is empty, the two readings
    agree. *)
Lemma pick_on_distinct_keys (r : AnyRow) (keys : list string) :
  NoDup (map norm (Obj.keys r)) -> ~ In ""%string (Obj.keys r) ->
  pick r keys = resolve_spec r keys.
Proof.
  intros N E. rewrite pick_is_resolve. unfold resolve, resolve_spec.
  destruct (first_some (text_at r) keys); [reflexivity | ].
  replace (first_some (resolve_any r) keys) with (first_some (resolve_loose r) keys);
    [reflexivity | ].
  induction keys as [ | k ks IH]; simpl; [reflexivity | ].
  rewrite (resolve_any_unique r k N E), IH. reflexivity.
Qed.

(** ** Date coercion *)

Lemma parseDate_text (tza : Z) (parse : string -> option Z) (s : string) :
  s <> ""%string ->
  parseDate tza parse (Text s)
  = match parse (Str.trim s) with
    | Some t => Some {| tv := Some t |}
    | None => match parse_slash tza (Str.trim s) with
              | Some d => Some d
              | None => parse_dash tza (Str.trim s)
              end
    end.
Proof.
  intro N. destruct s as [ | c s]; [congruence | ].
  unfold parseDate, parse_text, Date_of_text, DateOps.valid, DateOps.getTime.
  cbn [tv]. destruct (parse (Str.trim (String c s))); reflexivity.
Qed.






(** The third rule asks for three parts only: where the parts are no
    numbers the result is an invalid date, not [null]. *)
Lemma three_parts_give_a_date (tza : Z) :
  parse_dash tza "a-b-c" = Some DateOps.invalid.
Proof. reflexivity. Qed.

(** ** Order of occurrence in lists *)

Lemma before_cons {A : Type} (a b x : A) (l : list A) :
  before a b (x :: l) <-> (a = x /\ In b l) \/ before a b l.
Proof.
  unfold before. split.
  - intros (l1 & l2 & E & Hb). destruct l1 as [ | y l1]; simpl in E.
    + inversion E; subst. left. auto.
    + inversion E; subst. right. exists l1, l2. auto.
  - intros [[-> Hb] | (l1 & l2 & -> & Hb)].
    + exists [], l. auto.
    + exists (x :: l1), l2. auto.
Qed.

Lemma before_snoc {A : Type} (a b x : A) (l : list A) :
  before a b (l ++ [x]) <-> before a b l \/ (In a l /\ b = x).
Proof.
  induction l as [ | y l IH]; simpl.
  - rewrite before_cons. unfold before. split.
    + intros [[_ []] | (l1 & l2 & E & _)]. destruct l1; discriminate.
    + intros [(l1 & l2 & E & _) | [[] _]]. destruct l1; discriminate.
  - rewrite !before_cons, IH, in_app_iff. simpl. split.
    + intros [[-> [H | [H | []]]] | [H | [H1 H2]]]; auto.
    + intros [[[-> H] | H] | [[H1 | H1] H2]]; subst; auto.
Qed.

Lemma before_In {A : Type} (a b : A) (l : list A) :
  before a b l -> In a l /\ In b l.
Proof.
  intros (l1 & l2 & -> & Hb). rewrite !in_app_iff. simpl. auto.
Qed.

Lemma before_map {A B : Type} (f : A -> B) (a b : A) (l : list A) :
  before a b l -> before (f a) (f b) (map f l).
Proof.
  intros (l1 & l2 & -> & Hb). exists (map f l1), (map f l2).
  rewrite map_app. simpl. split; [reflexivity | apply in_map; exact Hb].
Qed.

Lemma first_before_app (a b : string) (l l' : list string) :
  first_before a b l -> first_before a b (l ++ l').
Proof.
  intros (l1 & l2 & -> & Ha & Hb). exists l1, (l2 ++ l').
  rewrite <- app_assoc. simpl. auto.
Qed.

Lemma in_split_first (a : string) (l : list string) :
  In a l -> exists l1 l2, l = l1 ++ a :: l2 /\ ~ In a l1.
Proof.
  induction l as [ | x l IH]; simpl; [tauto | ].
  intro H. destruct (string_dec x a) as [-> | N].
  - exists [], l. simpl. auto.
  - destruct H as [H | H]; [congruence | ].
    destruct (IH H) as (l1 & l2 & -> & Hn). exists (x :: l1), l2.
    simpl. split; [reflexivity | tauto].
Qed.

Lemma first_before_new (a b : string) (l : list string) :
  In a l -> ~ In b l -> first_before a b (l ++ [b]).
Proof.
  intros Ha Hb. destruct (in_split_first a l Ha) as (l1 & l2 & -> & Hn).
  exists l1, (l2 ++ [b]). rewrite <- app_assoc. simpl.
  repeat split; auto. intro H. apply Hb. apply in_app_iff. auto.
Qed.

(** ** Maps in insertion order *)

Lemma JSMap_keys_set {V : Type} (m : JSMap.t V) (k : string) (v : V) :
  JSMap.keys (JSMap.set m k v) = JSSet.add (JSMap.keys m) k.
Proof.
  unfold JSSet.add, JSSet.has, JSMap.keys.
  induction m as [ | [k' v'] m IH]; simpl; [reflexivity | ].
  rewrite (String.eqb_sym k k'). destruct (String.eqb k' k); simpl; [reflexivity | ].
  rewrite IH. destruct (existsb (String.eqb k) (map fst m)); reflexivity.
Qed.

Lemma JSMap_get_In {V : Type} (m : JSMap.t V) (k : string) (v : V) :
  NoDup (JSMap.keys m) -> In (k, v) m -> JSMap.get m k = Some v.
Proof.
  unfold JSMap.keys. induction m as [ | [k' v'] m IH]; simpl; [tauto | ].
  intros N H. inversion N as [ | ? ? Hk Nm]; subst.
  destruct H as [H | H].
  - inversion H; subst. rewrite String.eqb_refl. reflexivity.
  - destruct (String.eqb_spec k' k) as [-> | _].
    + exfalso. apply Hk. change k with (fst (k, v)). apply in_map. exact H.
    + apply IH; assumption.
Qed.

Lemma JSMap_get_None {V : Type} (m : JSMap.t V) (k : string) :
  ~ In k (JSMap.keys m) -> JSMap.get m k = None.
Proof.
  unfold JSMap.keys. induction m as [ | [k' v'] m IH]; simpl; [reflexivity | ].
  intro N. destruct (String.eqb_spec k' k); [tauto | apply IH; tauto].
Qed.

Lemma JSSet_add_order (s : JSSet.t) (l : list string) (k : string) :
  (forall a, In a s <-> In a l) ->
  (forall a b, before a b s -> first_before a b l) ->
  forall a b, before a b (JSSet.add s k) -> first_before a b (l ++ [k]).
Proof.
  intros M O a b H. unfold JSSet.add in H. destruct (JSSet.has s k) eqn:E.
  - apply first_before_app. apply O. exact H.
  - apply before_snoc in H. destruct H as [H | [Ha ->]].
    + apply first_before_app. apply O. exact H.
    + apply first_before_new; [apply M; exact Ha | ].
      intro Hk. apply M in Hk. apply JSSet_has_In in Hk. congruence.
Qed.

Lemma JSSet_add_In (s : JSSet.t) (k a : string) :
  In a (JSSet.add s k) <-> In a s \/ a = k.
Proof.
  unfold JSSet.add. destruct (JSSet.has s k) eqn:E.
  - apply JSSet_has_In in E. split; [auto | intros [H | ->]; auto].
  - rewrite in_app_iff. simpl. split; intros [H | H]; auto.
    destruct H as [H | []]; auto.
Qed.

Lemma JSSet_add_NoDup (s : JSSet.t) (k : string) :
  NoDup s -> NoDup (JSSet.add s k).
Proof.
  intro N. unfold JSSet.add. destruct (JSSet.has s k) eqn:E; [exact N | ].
  apply NoDup_app; [exact N | repeat constructor; simpl; tauto | ].
  intros a Ha [Hb | []]. subst a. apply JSSet_has_In in Ha. congruence.
Qed.

(** ** Grouped sums *)

(** The reset [|| 0] of the loop changes no sum: it replaces a zero by
    zero, and a sum of finite values is never [NaN]. *)
Lemma add_or_zero (n v : number) :
  rounded n -> Num.add (Num.or_zero n) v = Num.add n v.
Proof.
  destruct n as [ | | | q]; try reflexivity; [intros [] | ]. intros _.
  unfold Num.or_zero, Num.truthy. destruct (Qeq_bool q 0) eqn:E; cbn [negb];
    [ | reflexivity].
  apply Qeq_bool_iff in E. destruct v as [ | | | y]; try reflexivity.
  unfold Num.zero, Num.add. apply round_compat. rewrite E. reflexivity.
Qed.

(** A sum stays a value of binary64 or an infinity when a finite value is
    added to it. *)
Lemma add_rounded (a b : number) :
  rounded a -> Num.isFinite b = true -> rounded (Num.add a b).
Proof.
  destruct b as [ | | | y]; try discriminate. intros R _.
  destruct a as [ | | | x]; [destruct R | exact I | exact I | ].
  apply round_rounded.
Qed.

Section Accumulate.

Variable keyFn : Row -> string.
Variable valFn : Row -> number.

Lemma sum_of_snoc (l : list Row) (r : Row) :
  sum_of valFn (l ++ [r]) = Num.add (sum_of valFn l) (valFn r).
Proof.
  unfold sum_of. rewrite fold_left_app. reflexivity.
Qed.

Lemma sum_of_rounded (l : list Row) :
  Forall (fun r => Num.isFinite (valFn r) = true) l -> rounded (sum_of valFn l).
Proof.
  induction l as [ | r l IH] using rev_ind; intro F; [exact on_grid_zero | ].
  apply Forall_app in F. destruct F as [Fl Fr]. inversion Fr; subst.
  rewrite sum_of_snoc. apply add_rounded; auto.
Qed.

Lemma total_snoc (k : string) (l : list Row) (r : Row) :
  total keyFn valFn k (l ++ [r])
  = if String.eqb (keyFn r) k
    then Num.add (total keyFn valFn k l) (valFn r)
    else total keyFn valFn k l.
Proof.
  unfold total. rewrite filter_app. simpl.
  destruct (String.eqb (keyFn r) k).
  - apply sum_of_snoc.
  - rewrite app_nil_r. reflexivity.
Qed.

Lemma total_absent (k : string) (l : list Row) :
  ~ In k (map keyFn l) -> total keyFn valFn k l = Num.zero.
Proof.
  unfold total. induction l as [ | r l IH]; simpl; [reflexivity | ].
  intro N. destruct (String.eqb_spec (keyFn r) k); [tauto | apply IH; tauto].
Qed.

Lemma total_rounded (k : string) (l : list Row) :
  Forall (fun r => Num.isFinite (valFn r) = true) l -> rounded (total keyFn valFn k l).
Proof.
  intro F. unfold total. apply sum_of_rounded.
  rewrite Forall_forall in *.
  intros r Hr. apply filter_In in Hr. apply F. tauto.
Qed.

Lemma accumulate_snoc (l : list Row) (r : Row) :
  accumulate keyFn valFn (l ++ [r])
  = JSMap.set (accumulate keyFn valFn l) (keyFn r)
      (Num.add (get_or_zero (accumulate keyFn valFn l) (keyFn r)) (valFn r)).
Proof.
  unfold accumulate. rewrite fold_left_app. reflexivity.
Qed.

(** The map after the loop: its keys are the keys of the rows, each once,
    in the order of their first occurrence, and each holds the sum over
    its rows. *)
Lemma accumulate_spec (l : list Row) :
  Forall (fun r => Num.isFinite (valFn r) = true) l ->
  let m := accumulate keyFn valFn l in
  NoDup (JSMap.keys m)
  /\ (forall a, In a (JSMap.keys m) <-> In a (map keyFn l))
  /\ (forall a b, before a b (JSMap.keys m) -> first_before a b (map keyFn l))
  /\ (forall k, In k (map keyFn l) ->
                JSMap.get m k = Some (total keyFn valFn k l)).
Proof.
  induction l as [ | r l IH] using rev_ind; intro F.
  - simpl. repeat split; try tauto; try constructor.
    intros a b H. apply before_In in H. destruct H as [[] _].
  - apply Forall_app in F. destruct F as [Fl Fr].
    destruct (IH Fl) as (N & M & O & G). clear IH.
    cbv zeta. rewrite accumulate_snoc, map_app. simpl map.
    set (m := accumulate keyFn valFn l) in *.
    split; [rewrite JSMap_keys_set; apply JSSet_add_NoDup; exact N | ].
    split.
    { intro a. rewrite JSMap_keys_set, JSSet_add_In, in_app_iff, M. simpl.
      intuition (subst; auto). }
    split.
    { intros a b. rewrite JSMap_keys_set. apply JSSet_add_order; assumption. }
    intros k Hk. rewrite JSMap_get_set, total_snoc.
    destruct (String.eqb_spec (keyFn r) k) as [E | E].
    + f_equal. subst k. unfold get_or_zero.
      destruct (in_dec string_dec (keyFn r) (map keyFn l)) as [I | I].
      * rewrite (G _ I). apply add_or_zero. apply total_rounded. exact Fl.
      * rewrite JSMap_get_None by (rewrite M; exact I).
        rewrite total_absent by exact I. reflexivity.
    + apply G. apply in_app_iff in Hk. destruct Hk as [Hk | [Hk | []]]; congruence.
Qed.

Lemma accumulate_values (l : list Row) (k : string) (v : number) :
  Forall (fun r => Num.isFinite (valFn r) = true) l -> In (k, v) (accumulate keyFn valFn l) ->
  v = total keyFn valFn k l.
Proof.
  intros F H. destruct (accumulate_spec l F) as (N & M & _ & G).
  assert (Hk : In k (map keyFn l)).
  { apply M. change k with (fst (k, v)). apply in_map. exact H. }
  specialize (G k Hk). rewrite (JSMap_get_In _ k v N H) in G. congruence.
Qed.

End Accumulate.

(** ** Sorting *)

Lemma insert_perm {A : Type} (cmp : A -> A -> number) (x : A) (l : list A) :
  Permutation (JSArray.insert cmp x l) (x :: l).
Proof.
  induction l as [ | y t IH]; cbn [JSArray.insert]; [reflexivity | ].
  destruct (Num.gt (cmp x y) Num.zero); [ | reflexivity].
  rewrite IH. apply perm_swap.
Qed.

Lemma sort_perm {A : Type} (cmp : A -> A -> number) (l : list A) :
  Permutation (JSArray.sort cmp l) l.
Proof.
  induction l as [ | x t IH]; [reflexivity | ].
  change (JSArray.sort cmp (x :: t)) with (JSArray.insert cmp x (JSArray.sort cmp t)).
  rewrite insert_perm. constructor. exact IH.
Qed.

Lemma insert_before {A : Type} (cmp : A -> A -> number) (x a b : A) (l : list A) :
  before a b (JSArray.insert cmp x l) ->
  (a = x /\ In b l) \/ before a b l
  \/ (b = x /\ In a l /\ Num.gt (cmp x a) Num.zero = true).
Proof.
  induction l as [ | y t IH]; cbn [JSArray.insert].
  - intros (l1 & l2 & E & Hb).
    destruct l1 as [ | ? [ | ]]; inversion E; subst; destruct Hb.
  - destruct (Num.gt (cmp x y) Num.zero) eqn:G.
    + rewrite !before_cons. intros [[-> Hb] | H].
      * apply (Permutation_in _ (insert_perm cmp x t)) in Hb.
        destruct Hb as [<- | Hb].
        -- right. right. simpl. auto.
        -- right. left. left. auto.
      * destruct (IH H) as [[-> Hb] | [Hb | (-> & Ha & Hg)]].
        -- left. simpl. auto.
        -- right. left. right. exact Hb.
        -- right. right. simpl. auto.
    + rewrite before_cons. intros [[-> Hb] | H]; auto.
Qed.

Lemma lt_irrefl (n : number) : Num.lt n n = false.
Proof.
  destruct n as [ | | | q]; try reflexivity.
  apply lt_Fin_false. apply Qle_refl.
Qed.

(** The comparator [b[1] - a[1]] is positive exactly when [a] has the
    smaller value: the difference of two values of binary64 keeps its sign
    when rounded, and two equal infinities give [NaN], which is not
    positive. *)
Lemma by_value_gt (a b : string * number) :
  rounded (snd a) -> rounded (snd b) ->
  Num.gt (by_value_desc a b) Num.zero = Num.lt (snd a) (snd b).
Proof.
  unfold by_value_desc, Num.gt.
  destruct (snd a) as [ | | | p]; [intros [] | | | ];
    (destruct (snd b) as [ | | | q]; [intros _ [] | | | ]); try reflexivity.
  intros Gp Gq. cbn [Num.sub]. rewrite round_sign by (apply on_grid_sub; assumption).
  unfold Num.lt. f_equal.
  apply eq_true_iff_eq. rewrite !Qle_bool_iff. split; intro H; lra.
Qed.

Lemma not_lt_trans (a b c : number) :
  rounded a -> rounded b -> rounded c ->
  Num.lt a b = false -> Num.lt b c = false -> Num.lt a c = false.
Proof.
  destruct a as [ | | | p]; [intros [] | | | ];
    (destruct b as [ | | | q]; [intros _ [] | | | ]);
    (destruct c as [ | | | r]; [intros _ _ [] | | | ]);
    intros _ _ _; try reflexivity; try discriminate.
  rewrite !lt_Fin_false. intros H1 H2. lra.
Qed.

Lemma lt_asym (a b : number) : Num.lt a b = true -> Num.lt b a = false.
Proof.
  destruct a as [ | | | p], b as [ | | | q]; simpl; auto; try discriminate.
  rewrite negb_true_iff, negb_false_iff, Qle_bool_iff. intro H.
  destruct (Qlt_le_dec q p) as [L | L]; [ | exact L].
  apply Qlt_le_weak in L. apply Qle_bool_iff in L. congruence.
Qed.

Lemma insert_descending (x : string * number) (l : list (string * number)) :
  Forall (fun e => rounded (snd e)) (x :: l) -> descending l ->
  descending (JSArray.insert by_value_desc x l).
Proof.
  unfold descending. intros F S. inversion F as [ | ? ? Fx Fl]; subst.
  induction S as [ | y t St IH Hy]; cbn [JSArray.insert].
  - repeat constructor.
  - inversion Fl as [ | ? ? Fy Ft]; subst.
    rewrite (by_value_gt x y Fx Fy).
    destruct (Num.lt (snd x) (snd y)) eqn:L.
    + constructor.
      * apply IH; [constructor; assumption | assumption].
      * apply Forall_forall. intros z Hz.
        apply (Permutation_in _ (insert_perm by_value_desc x t)) in Hz.
        destruct Hz as [<- | Hz]; [apply lt_asym; exact L | ].
        revert z Hz. apply Forall_forall. exact Hy.
    + constructor; [constructor; assumption | ].
      constructor; [exact L | ].
      apply Forall_forall. intros z Hz.
      assert (Fz : rounded (snd z)).
      { revert z Hz. apply Forall_forall. exact Ft. }
      apply (not_lt_trans _ (snd y)); auto.
      rewrite Forall_forall in Hy. apply Hy. exact Hz.
Qed.

Lemma sort_desc_descending (l : list (string * number)) :
  Forall (fun e => rounded (snd e)) l -> descending (sort_desc l).
Proof.
  unfold sort_desc. induction l as [ | x t IH]; intro F.
  - constructor.
  - change (JSArray.sort by_value_desc (x :: t))
      with (JSArray.insert by_value_desc x (JSArray.sort by_value_desc t)).
    inversion F as [ | ? ? Fx Ft]; subst. apply insert_descending.
    + constructor; [exact Fx | ].
      rewrite Forall_forall in *.
      intros z Hz. apply Ft. apply (Permutation_in _ (sort_perm by_value_desc t)).
      exact Hz.
    + apply IH. exact Ft.
Qed.

(** The sort is stable: entries of equal value keep their order. *)
Lemma sort_desc_stable (l : list (string * number)) (a b : string * number) :
  Forall (fun e => rounded (snd e)) l -> before a b (sort_desc l) -> snd a = snd b -> before a b l.
Proof.
  unfold sort_desc. induction l as [ | x t IH]; intros F H E.
  - exact H.
  - change (JSArray.sort by_value_desc (x :: t))
      with (JSArray.insert by_value_desc x (JSArray.sort by_value_desc t)) in H.
    inversion F as [ | ? ? Fx Ft]; subst. apply before_cons.
    apply insert_before in H. destruct H as [[-> Hb] | [H | (-> & Ha & G)]].
    + left. split; [reflexivity | ].
      apply (Permutation_in _ (sort_perm by_value_desc t)). exact Hb.
    + right. apply IH; assumption.
    + exfalso. rewrite by_value_gt in G.
      * rewrite E, lt_irrefl in G. discriminate.
      * exact Fx.
      * rewrite E. exact Fx.
Qed.


Lemma grouped_sum_sorted (keyFn : Row -> string) (valFn : Row -> number)
  (l : list Row) :
  Forall (fun r => Num.isFinite (valFn r) = true) l ->
  grouped_sum keyFn valFn l
    (sort_desc (JSMap.entries (accumulate keyFn valFn l))).
Proof.
  intro F. unfold JSMap.entries.
  destruct (accumulate_spec keyFn valFn l F) as (N & M & O & G).
  set (m := accumulate keyFn valFn l) in *.
  assert (P : Permutation (sort_desc m) m) by apply sort_perm.
  assert (Fm : Forall (fun e => rounded (snd e)) m).
  { apply Forall_forall. intros [k v] H.
    rewrite (accumulate_values keyFn valFn l k v F H). apply total_rounded. exact F. }
  unfold grouped_sum. split.
  { apply (Permutation_NoDup (l := map fst m)); [ | exact N].
    apply Permutation_map. symmetry. exact P. }
  split.
  { intro k. rewrite <- M. unfold JSMap.keys.
    split; apply Permutation_in; apply Permutation_map; [ | symmetry]; exact P. }
  split.
  { intros k v H. apply (accumulate_values keyFn valFn l k v F).
    apply (Permutation_in _ P). exact H. }
  split.
  { apply sort_desc_descending. exact Fm. }
  intros a b H E. apply O.
  apply (before_map fst). apply sort_desc_stable; assumption.
Qed.

Lemma sales_finite_on (l : list Row) :
  Forall finite_row l -> Forall (fun r => Num.isFinite (__sales r) = true) l.
Proof.
  apply Forall_impl. intros r H. apply H.
Qed.

Lemma profit_finite_on (l : list Row) :
  Forall finite_row l -> Forall (fun r => Num.isFinite (__profit r) = true) l.
Proof.
  apply Forall_impl. intros r H. apply H.
Qed.

(** C2, as the code has it.  Over the filtered rows of a normalised
    dataset, each grouped-sum view lists its keys once each, every value
    being the sum of the metric over the filtered rows of that key, added in
    row order and each addition rounded to binary64, in descending order of
    value, entries of equal value in the order in which their keys first
    occur; the sub-category profit view keeps the first 10 entries of that
    sorted list and the product container view the first 8.  On the rows
    (A, 10), (B, 30), (A, 5) the result is (B, 30), (A, 15); on the records
    (B, 0.3), (A, 0.1), (A, 0.2) it is (A, 0.30000000000000004),
    (B, 0.3). *)
Theorem grouped_sum_views (tza : Z) (parse : string -> option Z)
  (raw : list AnyRow) (st : FilterState) :
  let fl := filtered tza (rows tza parse raw) st in
  grouped_view __segment __sales None fl (bySegment fl)
  /\ grouped_view __category __sales None fl (byCategory fl)
  /\ grouped_view __region __sales None fl (salesByRegion fl)
  /\ grouped_view __subCategory __profit (Some 10%nat) fl (profitBySubCategory fl)
  /\ grouped_view __productContainer __sales (Some 8%nat) fl
       (salesByProductContainer fl)
  /\ entries_of (bySegment [sample_row "A" 10; sample_row "B" 30; sample_row "A" 5])
     = [("B"%string, Fin 30); ("A"%string, Fin 15)]
  /\ entries_of (bySegment (filtered 0 (rows 0 DateParse_iso tenths_raw) no_filter))
     = [("A"%string, Fin (1351079888211149 # 4503599627370496));
        ("B"%string, Fin (5404319552844595 # 18014398509481984))].
Proof.
  intro fl.
  assert (F : Forall finite_row fl).
  { apply filtered_finite. apply rows_finite. }
  pose proof (sales_finite_on fl F) as Fs.
  pose proof (profit_finite_on fl F) as Fp.
  unfold grouped_view.
  split; [eexists; split; [apply grouped_sum_sorted; exact Fs | reflexivity] | ].
  split; [eexists; split; [apply grouped_sum_sorted; exact Fs | reflexivity] | ].
  split; [eexists; split; [apply grouped_sum_sorted; exact Fs | reflexivity] | ].
  split; [eexists; split; [apply grouped_sum_sorted; exact Fp | reflexivity] | ].
  split; [eexists; split; [apply grouped_sum_sorted; exact Fs | reflexivity] | ].
  split; vm_compute; reflexivity.
Qed.

(** C2, as stated, fails: a value is the sum as the code adds it, each
    addition rounded to binary64, and not the exact sum.  For the records
    (B, 0.3), (A, 0.1), (A, 0.2) the entry of A holds 0.30000000000000004,
    which is more than the exact sum of the sales of its two rows. *)
Lemma grouped_sum_not_exact :
  ~ (forall (tza : Z) (parse : string -> option Z) (raw : list AnyRow)
            (st : FilterState),
        let fl := filtered tza (rows tza parse raw) st in
        forall k v, In (k, v) (entries_of (bySegment fl)) ->
                    (qval v == exact_total __segment __sales k fl)%Q).
Proof.
  intro H.
  specialize (H 0 DateParse_iso tenths_raw no_filter "A"%string
                (Fin (1351079888211149 # 4503599627370496))).
  cbv zeta in H.
  assert (I : In ("A"%string, Fin (1351079888211149 # 4503599627370496))
                 (entries_of (bySegment (filtered 0 (rows 0 DateParse_iso tenths_raw)
                                                  no_filter)))).
  { vm_compute. left. reflexivity. }
  specialize (H I). vm_compute in H. discriminate H.
Qed.

(** ** Insights *)





Lemma or_else_named (s : string) : Str.truthy (Str.or_else s "Unknown") = true.
Proof.
  destruct s; reflexivity.
Qed.

Lemma to_row_named (tza : Z) (parse : string -> option Z) (r : AnyRow) :
  named_row (to_row tza parse r).
Proof.
  unfold named_row, to_row; cbn [__region __segment __category __subCategory].
  repeat split; apply or_else_named.
Qed.



(** *** Months *)

Lemma JSMap_get_map {V W : Type} (f : V -> W) (m : JSMap.t V) (k : string) :
  JSMap.get (map (fun e => (fst e, f (snd e))) m) k = option_map f (JSMap.get m k).
Proof.
  induction m as [ | [k' v] m IH]; simpl; [reflexivity | ].
  destruct (String.eqb k' k); [reflexivity | exact IH].
Qed.

Lemma JSMap_set_map {V W : Type} (f : V -> W) (m : JSMap.t V) (k : string) (v : V) :
  JSMap.set (map (fun e => (fst e, f (snd e))) m) k (f v)
  = map (fun e => (fst e, f (snd e))) (JSMap.set m k v).
Proof.
  induction m as [ | [k' v'] m IH]; simpl; [reflexivity | ].
  destruct (String.eqb k' k); simpl; [reflexivity | ]. rewrite IH. reflexivity.
Qed.

Lemma JSMap_set_In {V : Type} (m : JSMap.t V) (k : string) (v : V) (e : string * V) :
  In e (JSMap.set m k v) -> snd e = v \/ In e m.
Proof.
  induction m as [ | [k' v'] m IH]; simpl.
  - intros [<- | []]. auto.
  - destruct (String.eqb k' k); simpl.
    + intros [<- | H]; auto.
    + intros [<- | H]; auto. destruct (IH H); auto.
Qed.







(** * Further properties of the page's code *)

(** ** What the normaliser guarantees *)

(** X1.  The normaliser gives one row per record, in order; in every row
    the four metrics are finite numbers and region, segment, category,
    sub-category, ship mode, product container and product name are not
    empty, whatever the record holds. *)
Theorem rows_canonical (tza : Z) (parse : string -> option Z) (raw : list AnyRow) :
  List.length (rows tza parse raw) = List.length raw
  /\ (forall i r, nth_error raw i = Some r ->
                  nth_error (rows tza parse raw) i = Some (to_row tza parse r))
  /\ Forall (fun r => finite_row r /\ named_row r
                      /\ __shipMode r <> ""%string
                      /\ __productContainer r <> ""%string
                      /\ __productName r <> ""%string)
            (rows tza parse raw).
Proof.
  unfold rows. split; [apply length_map | ]. split.
  - intros i r H. rewrite nth_error_map, H. reflexivity.
  - apply Forall_forall. intros r H. apply in_map_iff in H.
    destruct H as (a & <- & _).
    split; [apply to_row_finite | ]. split; [apply to_row_named | ].
    unfold to_row; cbn [__shipMode __productContainer __productName].
    repeat split; intro E;
      match type of E with
      | Str.or_else ?s _ = _ =>
          pose proof (or_else_named s) as T; rewrite E in T; discriminate T
      end.
Qed.

(** ** Scalar KPIs *)

Lemma rounded_not_NaN (n : number) : rounded n -> Num.isNaN n = false.
Proof.
  destruct n; [intros [] | reflexivity | reflexivity | reflexivity].
Qed.

Lemma div_rounded (a : number) (n : Z) :
  rounded a -> n <> 0 -> rounded (Num.div a (Num.of_Z n)).
Proof.
  intros R N. unfold Num.of_Z.
  destruct a as [ | | | x]; [destruct R | | | ]; cbn [Num.div].
  - destruct (Qle_bool 0 (inject_Z n)); exact I.
  - destruct (Qle_bool 0 (inject_Z n)); exact I.
  - destruct (Qeq_bool (inject_Z n) 0) eqn:E; [ | apply round_rounded].
    apply Qeq_bool_iff in E. unfold Qeq, inject_Z in E. simpl in E. lia.
Qed.

Lemma mean_or_zero_rounded (total : number) (n : Z) :
  rounded total -> rounded (mean_or_zero total n).
Proof.
  intro R. unfold mean_or_zero. destruct (Z.eqb_spec n 0) as [E | E]; cbn [negb].
  - exact on_grid_zero.
  - apply div_rounded; assumption.
Qed.

Lemma fold_add_rounded (l : list number) (a : number) :
  rounded a -> Forall (fun n => Num.isFinite n = true) l ->
  rounded (fold_left Num.add l a).
Proof.
  revert a. induction l as [ | n l IH]; intros a Ra Fl; [exact Ra | ].
  inversion Fl; subst. simpl. apply IH; [apply add_rounded | ]; assumption.
Qed.

(** The margin is [NaN] exactly when both totals are infinite. *)
Lemma margin_NaN (sales profit : number) :
  rounded sales -> rounded profit ->
  Num.isNaN (if Num.truthy sales then Num.div profit sales else Num.zero) = true
  <-> Num.isFinite sales = false /\ Num.isFinite profit = false.
Proof.
  intros Rs Rp.
  destruct sales as [ | | | y]; [destruct Rs | | | ];
    (destruct profit as [ | | | x]; [destruct Rp | | | ]);
    cbn [Num.truthy Num.div Num.isFinite Num.isNaN Num.zero];
    try (split; [discriminate | intros [A B]; discriminate]);
    try (split; [intros _; split; reflexivity | reflexivity]).
  - destruct (negb (Qeq_bool y 0)); [ | split; [discriminate | intros [A B]; discriminate]].
    destruct (Qle_bool 0 y); split; try discriminate; intros [A B]; discriminate.
  - destruct (negb (Qeq_bool y 0)); [ | split; [discriminate | intros [A B]; discriminate]].
    destruct (Qle_bool 0 y); split; try discriminate; intros [A B]; discriminate.
  - destruct (Qeq_bool y 0); cbn [negb Num.isNaN];
      [split; [discriminate | intros [A B]; discriminate] | ].
    rewrite (rounded_not_NaN _ (round_rounded (x / y))).
    split; [discriminate | intros [A B]; discriminate].
Qed.

Lemma JSSet_of_list_length (l : list string) :
  (List.length (JSSet.of_list l) <= List.length l)%nat.
Proof.
  unfold JSSet.of_list.
  destruct (JSSet_fold_spec l []) as [N I]; [constructor | ].
  apply NoDup_incl_length; [exact N | ].
  intros a Ha. apply I in Ha. destruct Ha as [[] | Ha]. exact Ha.
Qed.

Lemma orders_bounds (l : list Row) :
  0 <= orders_of l <= Z.of_nat (List.length l)
  /\ (l <> [] -> 1 <= orders_of l).
Proof.
  unfold orders_of, JSSet.size.
  pose proof (JSSet_of_list_length (filter Str.truthy (map __orderId l))) as B.
  pose proof (filter_length_le Str.truthy (map __orderId l)) as B'.
  rewrite length_map in B'.
  destruct (Z.eqb_spec
              (Z.of_nat (List.length (JSSet.of_list (filter Str.truthy (map __orderId l)))))
              0) as [E | E]; simpl.
  - split; [lia | ]. intro N. destruct l; [congruence | simpl; lia].
  - split; lia.
Qed.

Lemma kpis_are_numbers (l : list Row) :
  Forall finite_row l ->
  rounded (k_sales (kpis l))
  /\ rounded (k_profit (kpis l))
  /\ rounded (k_avgDiscount (kpis l))
  /\ rounded (k_avgShipDays (kpis l))
  /\ rounded (k_aov (kpis l)).
Proof.
  intro F.
  assert (Fs : rounded (sum_of __sales l)).
  { apply sum_of_rounded. apply sales_finite_on. exact F. }
  assert (Fp : rounded (sum_of __profit l)).
  { apply sum_of_rounded. apply profit_finite_on. exact F. }
  assert (Fd : rounded (sum_of __discount l)).
  { apply sum_of_rounded. revert F. apply Forall_impl. intros r H. apply H. }
  cbn [kpis k_sales k_profit k_avgDiscount k_avgShipDays k_aov].
  split; [exact Fs | ]. split; [exact Fp | ].
  split; [apply mean_or_zero_rounded; exact Fd | ]. split.
  { apply mean_or_zero_rounded. apply fold_add_rounded; [exact on_grid_zero | ].
    apply Forall_forall. intros n H. apply filter_In in H. tauto. }
  apply mean_or_zero_rounded. exact Fs.
Qed.

(** X2.  On rows with finite metrics, total sales, total profit, the
    average discount, the average ship days and the average order value are
    never [NaN] (a total beyond the largest finite number is an infinity),
    and the margin is [NaN] exactly when total sales and total profit are
    both infinite; the order count lies between 0 and the number of rows and
    is at least 1 as soon as there is a row; and without rows every KPI is
    0. *)
Theorem kpis_well_defined (l : list Row) :
  Forall finite_row l ->
  (Num.isNaN (k_sales (kpis l)) = false
   /\ Num.isNaN (k_profit (kpis l)) = false
   /\ Num.isNaN (k_avgDiscount (kpis l)) = false
   /\ Num.isNaN (k_avgShipDays (kpis l)) = false
   /\ Num.isNaN (k_aov (kpis l)) = false)
  /\ (Num.isNaN (k_margin (kpis l)) = true
      <-> Num.isFinite (k_sales (kpis l)) = false
          /\ Num.isFinite (k_profit (kpis l)) = false)
  /\ 0 <= k_orders (kpis l) <= Z.of_nat (List.length l)
  /\ (l <> [] -> 1 <= k_orders (kpis l))
  /\ kpis [] = {| k_sales := Fin 0; k_profit := Fin 0; k_orders := 0;
                  k_margin := Fin 0; k_avgDiscount := Fin 0;
                  k_avgShipDays := Fin 0; k_aov := Fin 0 |}.
Proof.
  intro F. destruct (kpis_are_numbers l F) as (Rs & Rp & Rd & Rh & Ra).
  split.
  { repeat split; apply rounded_not_NaN; assumption. }
  split.
  { cbn [kpis k_sales k_profit k_margin] in *. apply margin_NaN; assumption. }
  destruct (orders_bounds l) as [B1 B2].
  split; [exact B1 | ]. split; [exact B2 | reflexivity].
Qed.

(** The KPIs of three sample rows, and of two rows whose sales and profit
    are the largest power of ten below the largest finite number: both
    totals are infinite and the margin is [NaN]. *)
Lemma kpis_well_defined_sample :
  (Num.isNaN (k_aov (kpis [sample_row "A" 10; sample_row "B" 30; sample_row "A" 5]))
   = false
   /\ k_orders (kpis [sample_row "A" 10; sample_row "B" 30; sample_row "A" 5]) = 2)
  /\ k_sales (kpis [huge_row; huge_row]) = PInf
  /\ k_margin (kpis [huge_row; huge_row]) = NaN.
Proof.
  assert (F : Forall finite_row [sample_row "A" 10; sample_row "B" 30; sample_row "A" 5]).
  { repeat constructor. }
  destruct (kpis_well_defined _ F) as ((_ & _ & _ & _ & Ha) & _).
  split; [split; [exact Ha | reflexivity] | ].
  split; vm_compute; reflexivity.
Defined.

(** ** Year bounds and reset *)

Lemma fold_Zmin_spec (zs : list Z) (a : Z) :
  fold_left Z.min zs a <= a
  /\ (forall z, In z zs -> fold_left Z.min zs a <= z)
  /\ In (fold_left Z.min zs a) (a :: zs).
Proof.
  revert a. induction zs as [ | b zs IH]; intro a; simpl.
  - split; [lia | ]. split; [tauto | auto].
  - destruct (IH (Z.min a b)) as (H1 & H2 & H3). split; [lia | ]. split.
    + intros z [<- | Hz]; [lia | apply H2; exact Hz].
    + destruct H3 as [H3 | H3]; [ | auto].
      destruct (Z.min_spec a b) as [[_ E] | [_ E]]; [left | right; left]; congruence.
Qed.

Lemma fold_Zmax_spec (zs : list Z) (a : Z) :
  a <= fold_left Z.max zs a
  /\ (forall z, In z zs -> z <= fold_left Z.max zs a)
  /\ In (fold_left Z.max zs a) (a :: zs).
Proof.
  revert a. induction zs as [ | b zs IH]; intro a; simpl.
  - split; [lia | ]. split; [tauto | auto].
  - destruct (IH (Z.max a b)) as (H1 & H2 & H3). split; [lia | ]. split.
    + intros z [<- | Hz]; [lia | apply H2; exact Hz].
    + destruct H3 as [H3 | H3]; [ | auto].
      destruct (Z.max_spec a b) as [[_ E] | [_ E]]; [right; left | left]; congruence.
Qed.

Lemma fold_min_of_Z (zs : list Z) (a : Z) :
  fold_left Num.min (map Num.of_Z zs) (Num.of_Z a) = Num.of_Z (fold_left Z.min zs a).
Proof.
  revert a. induction zs as [ | b zs IH]; intro a; cbn [map fold_left]; [reflexivity | ].
  rewrite min_of_Z. apply IH.
Qed.

Lemma fold_max_of_Z (zs : list Z) (a : Z) :
  fold_left Num.max (map Num.of_Z zs) (Num.of_Z a) = Num.of_Z (fold_left Z.max zs a).
Proof.
  revert a. induction zs as [ | b zs IH]; intro a; cbn [map fold_left]; [reflexivity | ].
  rewrite max_of_Z. apply IH.
Qed.

Lemma Math_min_of_Z (z : Z) (zs : list Z) :
  Math_min (map Num.of_Z (z :: zs)) = Num.of_Z (fold_left Z.min zs z).
Proof.
  unfold Math_min. cbn [map fold_left].
  change (Num.min PInf (Num.of_Z z)) with (Num.of_Z z). apply fold_min_of_Z.
Qed.

Lemma Math_max_of_Z (z : Z) (zs : list Z) :
  Math_max (map Num.of_Z (z :: zs)) = Num.of_Z (fold_left Z.max zs z).
Proof.
  unfold Math_max. cbn [map fold_left].
  change (Num.max NInf (Num.of_Z z)) with (Num.of_Z z). apply fold_max_of_Z.
Qed.

Lemma year_finite_inv (tza : Z) (r : Row) :
  Num.isFinite (year_or_NaN tza r) = true ->
  exists y, year_or_NaN tza r = Num.of_Z y.
Proof.
  unfold year_or_NaN, getFullYear. destruct (__orderDate r) as [d | ]; [ | discriminate].
  destruct (fullYear tza d) as [y | ]; [ | discriminate]. intros _. exists y. reflexivity.
Qed.

Lemma of_Z_inj (a b : Z) : Num.of_Z a = Num.of_Z b -> a = b.
Proof.
  unfold Num.of_Z, inject_Z. intro H. inversion H. reflexivity.
Qed.

(** The finite years of the rows, as integers. *)
Lemma finite_years (tza : Z) (l : list Row) :
  exists zs,
    filter Num.isFinite (map (year_or_NaN tza) l) = map Num.of_Z zs
    /\ (forall y, In y zs <-> exists r, In r l /\ year_or_NaN tza r = Num.of_Z y).
Proof.
  induction l as [ | r l (zs & E & M)]; simpl.
  - exists []. split; [reflexivity | ]. intro y. split; [intros [] | intros (r & [] & _)].
  - destruct (Num.isFinite (year_or_NaN tza r)) eqn:F.
    + destruct (year_finite_inv tza r F) as (y0 & Ey). exists (y0 :: zs). split.
      * simpl. rewrite E, Ey. reflexivity.
      * intro y. simpl. rewrite M. split.
        -- intros [<- | (r' & Hr & Hy)]; [exists r; auto | exists r'; auto].
        -- intros (r' & [<- | Hr] & Hy).
           ++ left. rewrite Ey in Hy. apply of_Z_inj. exact Hy.
           ++ right. exists r'. auto.
    + exists zs. split; [exact E | ]. intro y. rewrite M. split.
      * intros (r' & Hr & Hy). exists r'. auto.
      * intros (r' & [<- | Hr] & Hy); [ | exists r'; auto].
        rewrite Hy in F. discriminate F.
Qed.

Lemma passes_reset (tza : Z) (lo hi : Z) (r : Row) :
  passes tza (resetAll {| minY := Num.of_Z lo; maxY := Num.of_Z hi |})
         (Num.of_Z lo) (Num.of_Z hi) r
  = match year_or_NaN tza r with
    | Fin _ => negb (Num.lt (year_or_NaN tza r) (Num.of_Z lo)
                     || Num.lt (Num.of_Z hi) (year_or_NaN tza r))
    | _ => false
    end.
Proof.
  unfold passes, year_or_NaN, Num.gt, resetAll, rejects.
  cbn [region segment category stateName shipMode].
  destruct (match __orderDate r with
            | Some d => getFullYear tza d
            | None => NaN
            end) as [ | | | q]; try reflexivity.
Qed.

(** X3.  After a reset the filter keeps exactly the rows whose order date
    has a year, in their order: the bounds that [yearBounds] computes
    enclose every such year.  They are years of rows when there is a dated
    row, and 2010 and 2016 when there is none. *)
Theorem reset_keeps_every_dated_row (tza : Z) (l : list Row) :
  filtered tza l (resetAll (yearBounds tza l))
  = filter (fun r => Num.isFinite (year_or_NaN tza r)) l
  /\ ((exists r, In r l /\ Num.isFinite (year_or_NaN tza r) = true) ->
      exists r1 r2, In r1 l /\ In r2 l
                    /\ year_or_NaN tza r1 = minY (yearBounds tza l)
                    /\ year_or_NaN tza r2 = maxY (yearBounds tza l))
  /\ ((forall r, In r l -> Num.isFinite (year_or_NaN tza r) = false) ->
      yearBounds tza l = {| minY := Num.of_Z 2010; maxY := Num.of_Z 2016 |}).
Proof.
  destruct (finite_years tza l) as (zs & E & M).
  unfold yearBounds. rewrite E. destruct zs as [ | z zs].
  - (* no dated row *)
    cbn [map List.length Nat.eqb negb]. split; [ | split].
    + unfold filtered. cbn [resetAll yearFrom yearTo minY maxY].
      rewrite min_of_Z, max_of_Z. apply filter_ext_in. intros r Hr.
      change (Num.of_Z (Z.min 2010 2016)) with (Num.of_Z 2010).
      change (Num.of_Z (Z.max 2010 2016)) with (Num.of_Z 2016).
      rewrite passes_reset.
      destruct (Num.isFinite (year_or_NaN tza r)) eqn:F.
      * destruct (year_finite_inv tza r F) as (y & Ey).
        exfalso. apply (proj2 (M y)). exists r. auto.
      * destruct (year_or_NaN tza r); try reflexivity. discriminate F.
    + intros (r & Hr & F). destruct (year_finite_inv tza r F) as (y & Ey).
      exfalso. apply (proj2 (M y)). exists r. auto.
    + reflexivity.
  - (* some dated row *)
    change (negb (List.length (map Num.of_Z (z :: zs)) =? 0)%nat) with true. cbv iota.
    rewrite Math_min_of_Z, Math_max_of_Z.
    destruct (fold_Zmin_spec zs z) as (L1 & L2 & L3).
    destruct (fold_Zmax_spec zs z) as (U1 & U2 & U3).
    set (lo := fold_left Z.min zs z) in *. set (hi := fold_left Z.max zs z) in *.
    split; [ | split].
    + unfold filtered. cbn [resetAll yearFrom yearTo minY maxY].
      rewrite min_of_Z, max_of_Z.
      rewrite Z.min_l, Z.max_r by lia.
      apply filter_ext_in. intros r Hr. rewrite passes_reset.
      destruct (Num.isFinite (year_or_NaN tza r)) eqn:F.
      * destruct (year_finite_inv tza r F) as (y & Ey). rewrite Ey.
        assert (Hy : In y (z :: zs)) by (apply M; exists r; auto).
        change (Num.of_Z y) with (Fin (inject_Z y)) at 1. cbv iota.
        rewrite !lt_of_Z.
        assert (lo <= y <= hi).
        { destruct Hy as [<- | Hy]; [lia | ]. split; [apply L2 | apply U2]; exact Hy. }
        destruct (Z.ltb_spec y lo), (Z.ltb_spec hi y); first [lia | reflexivity].
      * destruct (year_or_NaN tza r); try reflexivity. discriminate F.
    + intros _. cbn [minY maxY].
      apply (proj1 (M lo)) in L3. apply (proj1 (M hi)) in U3.
      destruct L3 as (r1 & H1 & E1). destruct U3 as (r2 & H2 & E2).
      exists r1, r2. auto.
    + intro N. exfalso.
      assert (Hz : In z (z :: zs)) by (left; reflexivity).
      apply M in Hz. destruct Hz as (r & Hr & Ey).
      specialize (N r Hr). rewrite Ey in N. discriminate N.
Qed.

(** ** Filtering step by step *)

Lemma filter_filter_and {A : Type} (f g : A -> bool) (l : list A) :
  filter f (filter g l) = filter (fun a => f a && g a) l.
Proof.
  induction l as [ | a l IH]; simpl; [reflexivity | ].
  destruct (g a); simpl.
  - rewrite andb_true_r. destruct (f a); rewrite IH; reflexivity.
  - rewrite andb_false_r. exact IH.
Qed.

Lemma rejects_value (v field : string) :
  v <> "All"%string -> rejects v field = negb (String.eqb field v).
Proof.
  intro N. unfold rejects. destruct (String.eqb_spec v "All"); [congruence | reflexivity].
Qed.

Ltac drill_down N :=
  unfold filtered; cbn [yearFrom yearTo]; rewrite filter_filter_and;
  apply filter_ext; intro r; unfold passes;
  cbn [region segment category stateName shipMode];
  rewrite (rejects_value _ _ N);
  change (rejects "All" ?f) with false;
  repeat match goal with
         | |- context [String.eqb ?x ?y] => destruct (String.eqb x y)
         end;
  cbn [negb andb];
  repeat match goal with
         | |- context [if ?b then _ else _] => destruct b
         end;
  reflexivity.

(** X4.  Choosing a value other than ["All"] for one selector, the others
    and the years staying as they are, keeps exactly the rows of the
    current result with that value in the field: a selection drills down
    into what is shown.  Filtering an already filtered list again with the
    same state changes nothing. *)
Theorem selection_drills_down (tza : Z) (l : list Row) (rg sg cg sn sm v : string)
  (a b : number) :
  v <> "All"%string ->
  filtered tza l {| region := v; segment := sg; category := cg; stateName := sn;
                    shipMode := sm; yearFrom := a; yearTo := b |}
  = filter (fun r => String.eqb (__region r) v)
      (filtered tza l {| region := "All"; segment := sg; category := cg;
                         stateName := sn; shipMode := sm; yearFrom := a; yearTo := b |})
  /\ filtered tza l {| region := rg; segment := v; category := cg; stateName := sn;
                       shipMode := sm; yearFrom := a; yearTo := b |}
     = filter (fun r => String.eqb (__segment r) v)
         (filtered tza l {| region := rg; segment := "All"; category := cg;
                            stateName := sn; shipMode := sm; yearFrom := a; yearTo := b |})
  /\ filtered tza l {| region := rg; segment := sg; category := v; stateName := sn;
                       shipMode := sm; yearFrom := a; yearTo := b |}
     = filter (fun r => String.eqb (__category r) v)
         (filtered tza l {| region := rg; segment := sg; category := "All";
                            stateName := sn; shipMode := sm; yearFrom := a; yearTo := b |})
  /\ filtered tza l {| region := rg; segment := sg; category := cg; stateName := v;
                       shipMode := sm; yearFrom := a; yearTo := b |}
     = filter (fun r => String.eqb (__state r) v)
         (filtered tza l {| region := rg; segment := sg; category := cg;
                            stateName := "All"; shipMode := sm; yearFrom := a; yearTo := b |})
  /\ filtered tza l {| region := rg; segment := sg; category := cg; stateName := sn;
                       shipMode := v; yearFrom := a; yearTo := b |}
     = filter (fun r => String.eqb (__shipMode r) v)
         (filtered tza l {| region := rg; segment := sg; category := cg;
                            stateName := sn; shipMode := "All"; yearFrom := a; yearTo := b |})
  /\ (forall st, filtered tza (filtered tza l st) st = filtered tza l st).
Proof.
  intro N.
  split; [drill_down N | ]. split; [drill_down N | ]. split; [drill_down N | ].
  split; [drill_down N | ]. split; [drill_down N | ].
  intro st. unfold filtered. rewrite filter_filter_and. apply filter_ext.
  intro r. apply andb_diag.
Qed.

(** A selection of the region ["B"] among three sample rows. *)
Lemma selection_drills_down_sample :
  filtered 0 [sample_row "A" 10; sample_row "B" 30; sample_row "A" 5]
    {| region := "B"; segment := "All"; category := "All"; stateName := "All";
       shipMode := "All"; yearFrom := Num.of_Z 1970; yearTo := Num.of_Z 1970 |}
  = [sample_row "B" 30].
Proof.
  destruct (selection_drills_down 0
              [sample_row "A" 10; sample_row "B" 30; sample_row "A" 5]
              "All" "All" "All" "All" "All" "B" (Num.of_Z 1970) (Num.of_Z 1970))
    as (H & _); [discriminate | ].
  rewrite H. reflexivity.
Defined.

(** ** Code unit order of strings *)

Lemma compare_lt_trans (a b c : string) :
  String.compare a b = Lt -> String.compare b c = Lt -> String.compare a c = Lt.
Proof.
  revert b c. induction a as [ | x a IH]; intros [ | y b] [ | z c]; simpl;
    try discriminate; try reflexivity.
  unfold Ascii.compare.
  destruct (N.compare_spec (N_of_ascii x) (N_of_ascii y)) as [E1 | L1 | G1];
    try discriminate;
    destruct (N.compare_spec (N_of_ascii y) (N_of_ascii z)) as [E2 | L2 | G2];
    try discriminate;
    destruct (N.compare_spec (N_of_ascii x) (N_of_ascii z)) as [E3 | L3 | G3];
    try lia; try reflexivity.
  apply IH.
Qed.

Lemma ltb_asym (a b : string) : String.ltb a b = true -> String.ltb b a = false.
Proof.
  unfold String.ltb. rewrite (String.compare_antisym a b).
  destruct (String.compare b a); simpl; congruence.
Qed.

(** [a <= b]: [b] is not before [a]. *)
Lemma not_ltb_trans (a b c : string) :
  String.ltb b a = false -> String.ltb c b = false -> String.ltb c a = false.
Proof.
  unfold String.ltb. intros H1 H2.
  destruct (String.compare c a) eqn:E; try reflexivity. exfalso.
  destruct (String.compare b a) eqn:E1; try discriminate.
  - apply String.compare_eq_iff in E1. subst b. rewrite E in H2. discriminate.
  - destruct (String.compare c b) eqn:E2; try discriminate.
    + apply String.compare_eq_iff in E2. subst c. congruence.
    + rewrite String.compare_antisym in E1, E2.
      assert (A : String.compare a b = Lt) by (destruct (String.compare a b); simpl in *; congruence).
      assert (B : String.compare b c = Lt) by (destruct (String.compare b c); simpl in *; congruence).
      pose proof (compare_lt_trans a b c A B) as C.
      rewrite String.compare_antisym, C in E. discriminate.
Qed.

Lemma not_ltb_neq (a b : string) :
  String.ltb b a = false -> a <> b -> String.ltb a b = true.
Proof.
  unfold String.ltb. rewrite (String.compare_antisym a b). intros H N.
  destruct (String.compare b a) eqn:E; simpl in *; try congruence.
  apply String.compare_eq_iff in E. congruence.
Qed.

Lemma default_cmp_gt (a b : string) :
  Num.gt (JSArray.default_cmp a b) Num.zero = String.ltb b a.
Proof.
  unfold JSArray.default_cmp. destruct (String.ltb a b) eqn:E.
  - rewrite (ltb_asym a b E). reflexivity.
  - destruct (String.ltb b a); reflexivity.
Qed.

Lemma default_insert_sorted (a : string) (l : list string) :
  StronglySorted (fun p q => String.ltb q p = false) l ->
  StronglySorted (fun p q => String.ltb q p = false)
                 (JSArray.insert JSArray.default_cmp a l).
Proof.
  induction 1 as [ | y t St IH Hy]; cbn [JSArray.insert].
  - repeat constructor.
  - rewrite default_cmp_gt. destruct (String.ltb y a) eqn:L.
    + constructor; [exact IH | ].
      apply Forall_forall. intros z Hz.
      apply (Permutation_in _ (insert_perm JSArray.default_cmp a t)) in Hz.
      destruct Hz as [<- | Hz]; [apply ltb_asym; exact L | ].
      rewrite Forall_forall in Hy. apply Hy. exact Hz.
    + constructor; [constructor; assumption | ].
      constructor; [exact L | ].
      apply Forall_forall. intros z Hz. rewrite Forall_forall in Hy.
      apply (not_ltb_trans a y z); [exact L | apply Hy; exact Hz].
Qed.

Lemma default_sort_sorted (l : list string) :
  StronglySorted (fun p q => String.ltb q p = false)
                 (JSArray.sort JSArray.default_cmp l).
Proof.
  induction l as [ | a t IH]; [constructor | ].
  change (JSArray.sort JSArray.default_cmp (a :: t))
    with (JSArray.insert JSArray.default_cmp a (JSArray.sort JSArray.default_cmp t)).
  apply default_insert_sorted. exact IH.
Qed.

Lemma sorted_nodup_strict (l : list string) :
  NoDup l -> StronglySorted (fun p q => String.ltb q p = false) l ->
  StronglySorted (fun p q => String.ltb p q = true) l.
Proof.
  intros N S. induction S as [ | a t St IH Ha]; [constructor | ].
  inversion N as [ | ? ? Hn Nt]; subst. constructor; [apply IH; exact Nt | ].
  rewrite Forall_forall in *. intros z Hz. apply not_ltb_neq; [apply Ha; exact Hz | ].
  intro E. subst z. contradiction.
Qed.

(** ** Monthly series *)

Lemma JSMap_get_Some_In {V : Type} (m : JSMap.t V) (k : string) (v : V) :
  JSMap.get m k = Some v -> In (k, v) m.
Proof.
  induction m as [ | [k' v'] m IH]; simpl; [discriminate | ].
  destruct (String.eqb_spec k' k) as [-> | _].
  - intro E. inversion E; subst. auto.
  - intro E. right. apply IH. exact E.
Qed.

(** Each side of the map of the monthly series is the grouped sum of its
    metric by month key over the dated rows. *)
Lemma month_map_side (tza : Z) (side : MonthAcc -> number) (metric : Row -> number) :
  side {| acc_sales := Num.zero; acc_profit := Num.zero |} = Num.zero ->
  (forall cur r,
      side {| acc_sales := Num.add (acc_sales cur) (__sales r);
              acc_profit := Num.add (acc_profit cur) (__profit r) |}
      = Num.add (side cur) (metric r)) ->
  forall l, Forall (fun r => Num.isFinite (metric r) = true) l ->
  accumulate (month_key_of tza) metric (filter has_date l)
  = map (fun e => (fst e, side (snd e))) (month_map tza l).
Proof.
  intros Hz Hs l. unfold accumulate, month_map.
  change (@JSMap.empty number)
    with (map (fun e : string * MonthAcc => (fst e, side (snd e))) JSMap.empty).
  assert (F0 : Forall (fun e : string * MonthAcc => rounded (side (snd e)))
                      JSMap.empty) by constructor.
  revert F0. generalize (@JSMap.empty MonthAcc).
  induction l as [ | r l IH]; intros m2 Fm Fl; [reflexivity | ].
  inversion Fl as [ | ? ? Fr Fl']; subst.
  unfold dated. cbn [filter flat_map]. fold (dated l).
  unfold has_date at 1. destruct (__orderDate r) as [d | ] eqn:Ed.
  - cbn [app fold_left fst snd].
    replace (month_key_of tza r) with (monthKey tza d)
      by (unfold month_key_of; rewrite Ed; reflexivity).
    set (key := monthKey tza d).
    set (cur := match JSMap.get m2 key with
                | Some c => c
                | None => {| acc_sales := Num.zero; acc_profit := Num.zero |}
                end).
    assert (Fc : rounded (side cur)).
    { subst cur. destruct (JSMap.get m2 key) as [c | ] eqn:E.
      - rewrite Forall_forall in Fm. apply (Fm (key, c)).
        apply JSMap_get_Some_In. exact E.
      - rewrite Hz. exact on_grid_zero. }
    assert (E : Num.add (get_or_zero (map (fun e => (fst e, side (snd e))) m2) key)
                        (metric r)
                = Num.add (side cur) (metric r)).
    { unfold get_or_zero. rewrite JSMap_get_map. subst cur.
      destruct (JSMap.get m2 key) as [c | ]; cbn [option_map].
      - apply add_or_zero. exact Fc.
      - rewrite Hz. reflexivity. }
    rewrite E, <- Hs, JSMap_set_map. apply IH; [ | exact Fl'].
    apply Forall_forall. intros e He. apply JSMap_set_In in He.
    destruct He as [-> | He].
    + rewrite Hs. apply add_rounded; assumption.
    + rewrite Forall_forall in Fm. apply Fm. exact He.
  - cbn [app]. apply IH; assumption.
Qed.

Lemma total_month_bucket (tza : Z) (valFn : Row -> number) (k : string) (l : list Row) :
  total (month_key_of tza) valFn k (filter has_date l)
  = sum_of valFn (month_bucket tza k l).
Proof.
  unfold total, month_bucket. rewrite filter_filter_and. f_equal.
  apply filter_ext. intro r. unfold month_key_of, has_date.
  destruct (__orderDate r); [apply andb_true_r | apply andb_false_r].
Qed.

Lemma month_keys (tza : Z) (l : list Row) (k : string) :
  In k (map (month_key_of tza) (filter has_date l)) <->
  exists r d, In r l /\ __orderDate r = Some d /\ monthKey tza d = k.
Proof.
  rewrite in_map_iff. split.
  - intros (r & E & H). apply filter_In in H. destruct H as [H D].
    unfold has_date in D. unfold month_key_of in E.
    destruct (__orderDate r) as [d | ] eqn:Ed; [ | discriminate].
    exists r, d. auto.
  - intros (r & d & H & Ed & E). exists r. split.
    + unfold month_key_of. rewrite Ed. exact E.
    + apply filter_In. split; [exact H | ]. unfold has_date. rewrite Ed. reflexivity.
Qed.

Lemma month_side_values (tza : Z) (side : MonthAcc -> number) (metric : Row -> number)
  (l : list Row) :
  accumulate (month_key_of tza) metric (filter has_date l)
  = map (fun e => (fst e, side (snd e))) (month_map tza l) ->
  Forall (fun r => Num.isFinite (metric r) = true) l ->
  NoDup (JSMap.keys (month_map tza l)) ->
  forall k, In k (JSMap.keys (month_map tza l)) ->
            field_at side (month_map tza l) k = sum_of metric (month_bucket tza k l).
Proof.
  intros E F N k Hk. set (m := month_map tza l) in *.
  unfold JSMap.keys in Hk. apply in_map_iff in Hk.
  destruct Hk as ([k' c] & <- & Hc). cbn [fst].
  unfold field_at. rewrite (JSMap_get_In m k' c N Hc).
  rewrite <- total_month_bucket. apply accumulate_values.
  - apply Forall_forall. intros r Hr. apply filter_In in Hr.
    rewrite Forall_forall in F. apply F. tauto.
  - rewrite E. apply in_map_iff. exists (k', c). auto.
Qed.

(** X5.  The monthly series of rows with finite metrics: its keys are the
    month keys of the rows that have an order date, each once, in strictly
    ascending code unit order; the sales and the profit at a key are the
    sums over the rows of that month. *)
Theorem monthly_series (tza : Z) (l : list Row) :
  Forall finite_row l ->
  StronglySorted (fun a b => String.ltb a b = true) (x (byMonth tza l))
  /\ (forall k, In k (x (byMonth tza l)) <->
                exists r d, In r l /\ __orderDate r = Some d /\ monthKey tza d = k)
  /\ sales (byMonth tza l)
     = map (fun k => sum_of __sales (month_bucket tza k l)) (x (byMonth tza l))
  /\ profit (byMonth tza l)
     = map (fun k => sum_of __profit (month_bucket tza k l)) (x (byMonth tza l)).
Proof.
  intro F.
  pose proof (sales_finite_on l F) as Fs. pose proof (profit_finite_on l F) as Fp.
  pose proof (month_map_side tza acc_sales __sales eq_refl (fun _ _ => eq_refl) l Fs) as Es.
  pose proof (month_map_side tza acc_profit __profit eq_refl (fun _ _ => eq_refl) l Fp) as Ep.
  assert (Fs' : Forall (fun r => Num.isFinite (__sales r) = true) (filter has_date l)).
  { apply Forall_forall. intros r Hr. apply filter_In in Hr.
    rewrite Forall_forall in Fs. apply Fs. tauto. }
  destruct (accumulate_spec (month_key_of tza) __sales (filter has_date l) Fs')
    as (N & M & _ & _).
  assert (K : JSMap.keys (accumulate (month_key_of tza) __sales (filter has_date l))
              = JSMap.keys (month_map tza l)).
  { rewrite Es. unfold JSMap.keys. rewrite map_map. reflexivity. }
  rewrite K in N, M.
  cbn [byMonth x sales profit].
  set (m := month_map tza l) in *.
  set (X := JSArray.sort JSArray.default_cmp (JSMap.keys m)).
  assert (PX : Permutation X (JSMap.keys m)) by apply sort_perm.
  split.
  { apply sorted_nodup_strict; [ | apply default_sort_sorted].
    apply (Permutation_NoDup (Permutation_sym PX)). exact N. }
  split.
  { intro k. rewrite <- month_keys, <- M.
    split; apply Permutation_in; [ | symmetry]; exact PX. }
  split.
  - apply map_ext_in. intros k Hk. apply (Permutation_in _ PX) in Hk.
    apply month_side_values; assumption.
  - apply map_ext_in. intros k Hk. apply (Permutation_in _ PX) in Hk.
    apply month_side_values; assumption.
Qed.

(** The series of three sample rows of January 1970. *)
Lemma monthly_series_sample :
  x (byMonth 0 [sample_row "A" 10; sample_row "B" 30; sample_row "A" 5])
  = ["1970-01"%string]
  /\ sales (byMonth 0 [sample_row "A" 10; sample_row "B" 30; sample_row "A" 5])
     = [Fin 45].
Proof.
  assert (F : Forall finite_row [sample_row "A" 10; sample_row "B" 30; sample_row "A" 5]).
  { repeat constructor. }
  destruct (monthly_series 0 _ F) as (_ & _ & Hs & _).
  split; [reflexivity | ]. rewrite Hs. reflexivity.
Defined.

(** ** Decimal text of integers *)


Lemma digit_char (k : Z) :
  0 <= k <= 9 ->
  StringToNumber.is_digit (ascii_of_N (Z.to_N (48 + k))) = true
  /\ StringToNumber.digit_val (ascii_of_N (Z.to_N (48 + k))) = Some k.
Proof.
  intro H.
  assert (C : k = 0 \/ k = 1 \/ k = 2 \/ k = 3 \/ k = 4 \/ k = 5 \/ k = 6 \/ k = 7
              \/ k = 8 \/ k = 9) by lia.
  repeat (destruct C as [-> | C]; [split; reflexivity | ]). subst. split; reflexivity.
Qed.

Lemma digits_value (f : nat) (n : Z) (acc : string) :
  0 <= n < 2 ^ Z.of_nat f ->
  StringToNumber.value_in 10 (Str.digits_of_pos f n acc) 0
  = StringToNumber.value_in 10 acc n.
Proof.
  revert n acc. induction f as [ | f IH]; intros n acc B.
  - simpl in *. f_equal. lia.
  - cbn [Str.digits_of_pos].
    assert (M : 0 <= n mod 10 <= 9) by (pose proof (Z.mod_pos_bound n 10); lia).
    destruct (digit_char (n mod 10) M) as [_ V].
    destruct (Z.ltb_spec n 10) as [L | L].
    + cbn [StringToNumber.value_in]. rewrite V. f_equal.
      rewrite Z.mod_small by lia. lia.
    + rewrite IH.
      * cbn [StringToNumber.value_in]. rewrite V. f_equal.
        pose proof (Z.div_mod n 10). lia.
      * rewrite Nat2Z.inj_succ, Z.pow_succ_r in B by lia.
        split; [apply Z.div_pos; lia | ].
        apply Z.div_lt_upper_bound; lia.
Qed.

Lemma digits_all_digit (f : nat) (n : Z) (acc : string) :
  all_digit acc -> all_digit (Str.digits_of_pos f n acc).
Proof.
  revert n acc. induction f as [ | f IH]; intros n acc A; [exact A | ].
  cbn [Str.digits_of_pos].
  assert (M : 0 <= n mod 10 <= 9) by (pose proof (Z.mod_pos_bound n 10); lia).
  destruct (digit_char (n mod 10) M) as [D _].
  assert (A' : all_digit (String (ascii_of_N (Z.to_N (48 + n mod 10))) acc)).
  { intros c [<- | H]; [exact D | apply A; exact H]. }
  destruct (n <? 10); [exact A' | apply IH; exact A'].
Qed.

Lemma digits_not_empty (f : nat) (n : Z) (c : ascii) (acc : string) :
  Str.digits_of_pos f n (String c acc) <> EmptyString.
Proof.
  revert n c acc. induction f as [ | f IH]; intros n c acc; [discriminate | ].
  cbn [Str.digits_of_pos]. destruct (n <? 10); [discriminate | apply IH].
Qed.

Lemma log2_fuel (z : Z) : 0 <= z -> 0 <= z < 2 ^ Z.of_nat (S (Z.to_nat (Z.log2 z))).
Proof.
  intro H. split; [exact H | ].
  rewrite Nat2Z.inj_succ, Z2Nat.id by apply Z.log2_nonneg.
  destruct (Z.eq_dec z 0) as [-> | N]; [reflexivity | ].
  apply Z.log2_spec. lia.
Qed.

(** The decimal text of a natural number: digits only, not empty, and of
    the value of the number. *)
Lemma of_Z_nonneg (z : Z) :
  0 <= z ->
  all_digit (Str.of_Z z) /\ Str.of_Z z <> EmptyString
  /\ StringToNumber.value_in 10 (Str.of_Z z) 0 = z.
Proof.
  intro H. unfold Str.of_Z. destruct (Z.ltb_spec z 0) as [L | _]; [lia | ].
  split; [apply digits_all_digit; intros c [] | ]. split.
  - cbn [Str.digits_of_pos]. destruct (z <? 10); [discriminate | apply digits_not_empty].
  - rewrite digits_value by (apply log2_fuel; exact H). reflexivity.
Qed.

Lemma of_Z_negative (z : Z) :
  z < 0 -> Str.of_Z z = String "-" (Str.of_Z (- z)).
Proof.
  intro H. unfold Str.of_Z.
  destruct (Z.ltb_spec z 0) as [_ | L]; [ | lia].
  destruct (Z.ltb_spec (- z) 0) as [L | _]; [lia | reflexivity].
Qed.

Lemma all_digit_head (c : ascii) (s : string) :
  all_digit (String c s) -> StringToNumber.is_digit c = true /\ all_digit s.
Proof.
  intro A. split; [apply A; left; reflexivity | ].
  intros d H. apply A. right. exact H.
Qed.

Lemma text_of_Z_inj (a b : Z) : Str.of_Z a = Str.of_Z b -> a = b.
Proof.
  intro E.
  assert (P : forall x y, 0 <= x -> 0 <= y -> Str.of_Z x = Str.of_Z y -> x = y).
  { intros x y Hx Hy Exy.
    destruct (of_Z_nonneg x Hx) as (_ & _ & Vx).
    destruct (of_Z_nonneg y Hy) as (_ & _ & Vy). congruence. }
  assert (Q : forall x y, x < 0 -> 0 <= y -> Str.of_Z x <> Str.of_Z y).
  { intros x y Hx Hy Exy. rewrite (of_Z_negative x Hx) in Exy.
    destruct (of_Z_nonneg y Hy) as (A & _ & _). rewrite <- Exy in A.
    apply all_digit_head in A. destruct A as [A _]. discriminate A. }
  destruct (Z_lt_le_dec a 0) as [Ha | Ha], (Z_lt_le_dec b 0) as [Hb | Hb].
  - rewrite (of_Z_negative a Ha), (of_Z_negative b Hb) in E. inversion E as [E'].
    apply P in E'; lia.
  - exfalso. apply (Q a b Ha Hb E).
  - exfalso. apply (Q b a Hb Ha). symmetry. exact E.
  - apply P; assumption.
Qed.

(** ** Reading back a printed integer *)

















(** ** Month keys *)

Lemma month_of_bounds (f : nat) (m d l : Z) :
  m <= DateOps.month_of f m d l <= m + Z.of_nat f.
Proof.
  revert m. induction f as [ | f IH]; intro m; cbn [DateOps.month_of]; [lia | ].
  destruct (d <? DateOps.month_start (m + 1) l); [lia | ].
  specialize (IH (m + 1)). lia.
Qed.

Lemma MonthFromTime_range (t : Z) : 0 <= DateOps.MonthFromTime t <= 11.
Proof.
  unfold DateOps.MonthFromTime.
  pose proof (month_of_bounds 11 0 (DateOps.DayWithinYear t)
                (DateOps.InLeapYear (DateOps.YearFromTime t))). lia.
Qed.

Lemma monthKey_valid (tza t : Z) :
  monthKey tza {| tv := Some t |}
  = (Str.of_Z (DateOps.YearFromTime (t + tza)) ++ "-"
     ++ (if Num.lt (Num.of_Z (DateOps.MonthFromTime (t + tza) + 1)) (Num.of_Z 10)
         then "0" ++ Str.of_Z (DateOps.MonthFromTime (t + tza) + 1)
         else Str.of_Z (DateOps.MonthFromTime (t + tza) + 1)))%string.
Proof. reflexivity. Qed.

Lemma month_text (m : Z) :
  0 <= m <= 11 ->
  exists c1 c2,
    (if Num.lt (Num.of_Z (m + 1)) (Num.of_Z 10)
     then "0" ++ Str.of_Z (m + 1) else Str.of_Z (m + 1))%string
    = String c1 (String c2 EmptyString)
    /\ StringToNumber.is_digit c1 = true /\ StringToNumber.is_digit c2 = true
    /\ StringToNumber.value_in 10 (String c1 (String c2 EmptyString)) 0 = m + 1.
Proof.
  intro H.
  assert (C : m = 0 \/ m = 1 \/ m = 2 \/ m = 3 \/ m = 4 \/ m = 5 \/ m = 6 \/ m = 7
              \/ m = 8 \/ m = 9 \/ m = 10 \/ m = 11) by lia.
  repeat (destruct C as [-> | C];
          [eexists; eexists; split; [vm_compute; reflexivity | repeat split] | ]).
  subst. eexists; eexists; split; [vm_compute; reflexivity | repeat split].
Qed.

Lemma length_append (s t : string) :
  String.length (s ++ t) = (String.length s + String.length t)%nat.
Proof.
  induction s as [ | c s IH]; simpl; [reflexivity | rewrite IH; reflexivity].
Qed.

Lemma append_inj (s1 s2 t1 t2 : string) :
  (s1 ++ t1)%string = (s2 ++ t2)%string -> String.length t1 = String.length t2 ->
  s1 = s2 /\ t1 = t2.
Proof.
  revert s2. induction s1 as [ | c s1 IH]; intros [ | d s2] E L; simpl in E.
  - auto.
  - exfalso. subst t1. simpl in L. rewrite length_append in L. lia.
  - exfalso. subst t2. simpl in L. rewrite length_append in L. lia.
  - inversion E as [[Ec E']]. destruct (IH s2 E' L) as [-> ->]. auto.
Qed.

(** X7.  The month key of a valid date is the decimal year, a hyphen and
    the month in two digits; two valid dates have the same key exactly when
    they have the same local year and month; and the key of an invalid date
    is the key of no valid date. *)
Theorem monthKey_distinguishes (tza : Z) :
  (forall t, exists mm,
      monthKey tza {| tv := Some t |}
      = (Str.of_Z (DateOps.YearFromTime (t + tza)) ++ "-" ++ mm)%string
      /\ String.length mm = 2%nat /\ all_digit mm
      /\ StringToNumber.value_in 10 mm 0 = DateOps.MonthFromTime (t + tza) + 1)
  /\ (forall t1 t2,
        monthKey tza {| tv := Some t1 |} = monthKey tza {| tv := Some t2 |} <->
        DateOps.YearFromTime (t1 + tza) = DateOps.YearFromTime (t2 + tza)
        /\ DateOps.MonthFromTime (t1 + tza) = DateOps.MonthFromTime (t2 + tza))
  /\ (forall t, monthKey tza {| tv := Some t |} <> monthKey tza DateOps.invalid).
Proof.
  split; [ | split].
  - intro t. rewrite monthKey_valid.
    destruct (month_text _ (MonthFromTime_range (t + tza))) as (c1 & c2 & E & D1 & D2 & V).
    rewrite E. exists (String c1 (String c2 EmptyString)).
    repeat split; [ | exact V]. intros c [<- | [<- | []]]; assumption.
  - intros t1 t2. split.
    + rewrite !monthKey_valid.
      destruct (month_text _ (MonthFromTime_range (t1 + tza))) as (a1 & a2 & E1 & _ & _ & V1).
      destruct (month_text _ (MonthFromTime_range (t2 + tza))) as (b1 & b2 & E2 & _ & _ & V2).
      rewrite E1, E2. intro E. apply append_inj in E; [ | reflexivity].
      destruct E as [Ey Em]. apply text_of_Z_inj in Ey. split; [exact Ey | ].
      inversion Em; subst. lia.
    + intros [Ey Em]. rewrite !monthKey_valid, Ey, Em. reflexivity.
  - intros t E. rewrite monthKey_valid in E.
    change (monthKey tza DateOps.invalid) with "NaN-NaN"%string in E.
    set (y := DateOps.YearFromTime (t + tza)) in *.
    destruct (Z_lt_le_dec y 0) as [L | L].
    + rewrite (of_Z_negative y L) in E. discriminate E.
    + destruct (of_Z_nonneg y L) as (A & N & _).
      destruct (Str.of_Z y) as [ | c s]; [congruence | ].
      destruct (all_digit_head _ _ A) as [D _].
      inversion E; subst. discriminate D.
Qed.

(** ** Trimming *)

Lemma trimStart_head (s : string) :
  match Str.trimStart s with
  | String c _ => Str.is_space c = false
  | EmptyString => True
  end.
Proof.
  induction s as [ | c t IH]; simpl; [exact I | ].
  destruct (Str.is_space c) eqn:E; [exact IH | exact E].
Qed.

Lemma trimEnd_idem (s : string) : Str.trimEnd (Str.trimEnd s) = Str.trimEnd s.
Proof.
  induction s as [ | c t IH]; [reflexivity | ].
  cbn [Str.trimEnd]. destruct (Str.trimEnd t) as [ | d t'] eqn:E.
  - destruct (Str.is_space c) eqn:S; [reflexivity | ].
    cbn [Str.trimEnd]. rewrite S. reflexivity.
  - cbn [Str.trimEnd] in *. rewrite IH. reflexivity.
Qed.

Lemma trimEnd_keeps_head (c : ascii) (t : string) :
  Str.is_space c = false -> exists t', Str.trimEnd (String c t) = String c t'.
Proof.
  intro S. cbn [Str.trimEnd]. destruct (Str.trimEnd t) as [ | d t'].
  - rewrite S. eexists. reflexivity.
  - eexists. reflexivity.
Qed.

Lemma trim_idem (s : string) : Str.trim (Str.trim s) = Str.trim s.
Proof.
  unfold Str.trim. pose proof (trimStart_head s) as H.
  destruct (Str.trimStart s) as [ | c t]; [reflexivity | ].
  destruct (trimEnd_keeps_head c t H) as (t' & E).
  rewrite E. cbn [Str.trimStart]. rewrite H, <- E. apply trimEnd_idem.
Qed.

Lemma get_In (r : AnyRow) (k v : string) :
  Obj.get r k = Some v -> In (k, Some v) r.
Proof.
  induction r as [ | [k' w] r IH]; simpl; [discriminate | ].
  destruct (String.eqb_spec k' k) as [-> | _].
  - intros ->. auto.
  - intro E. auto.
Qed.

Lemma text_at_inv (r : AnyRow) (k w : string) :
  text_at r k = Some w ->
  w <> ""%string /\ exists v, In (k, Some v) r /\ w = Str.trim v.
Proof.
  unfold text_at. destruct (Obj.get r k) as [v | ] eqn:G; [ | discriminate].
  destruct (String.eqb_spec (Str.trim v) "") as [E | E]; [discriminate | ].
  intro H. inversion H; subst. split; [exact E | ].
  exists v. split; [apply get_In; exact G | reflexivity].
Qed.

Lemma first_some_inv {A B : Type} (f : A -> option B) (l : list A) (b : B) :
  first_some f l = Some b -> exists a, In a l /\ f a = Some b.
Proof.
  induction l as [ | a l IH]; simpl; [discriminate | ].
  destruct (f a) as [b' | ] eqn:E.
  - intro H. inversion H; subst. exists a. auto.
  - intro H. destruct (IH H) as (a' & Ha & Hf). exists a'. auto.
Qed.

Lemma resolve_loose_inv (r : AnyRow) (want w : string) :
  resolve_loose r want = Some w ->
  w <> ""%string /\ exists k v, In (k, Some v) r /\ w = Str.trim v.
Proof.
  unfold resolve_loose. destruct (key_like r want) as [real | ]; [ | discriminate].
  intro H. apply text_at_inv in H. destruct H as (N & v & Hv & E).
  split; [exact N | ]. exists real, v. auto.
Qed.

(** X8.  For aliases none of which names a property that every record
    inherits, what [pick] returns is the trimmed text under a key of the
    record, or the empty text: it never has white space around it, and it
    is empty for a record without keys and for an empty list of aliases. *)
Theorem pick_returns_trimmed_text (r : AnyRow) (keys : list string) :
  own_aliases keys = true ->
  Str.trim (pick r keys) = pick r keys
  /\ (pick r keys <> ""%string ->
      exists k v, In (k, Some v) r /\ pick r keys = Str.trim v)
  /\ pick r [] = ""%string
  /\ pick [] keys = ""%string.
Proof.
  intros _.
  assert (H : pick r keys = ""%string
              \/ exists k v, In (k, Some v) r /\ pick r keys = Str.trim v).
  { rewrite pick_is_resolve. unfold resolve.
    destruct (first_some (text_at r) keys) as [w | ] eqn:E1.
    - apply first_some_inv in E1. destruct E1 as (k & _ & T).
      apply text_at_inv in T. destruct T as (_ & v & Hv & ->). right. exists k, v. auto.
    - destruct (first_some (resolve_loose r) keys) as [w | ] eqn:E2; [ | auto].
      apply first_some_inv in E2. destruct E2 as (want & _ & T).
      apply resolve_loose_inv in T. destruct T as (_ & k & v & Hv & ->).
      right. exists k, v. auto. }
  split; [ | split; [ | split]].
  - destruct H as [-> | (k & v & _ & ->)]; [reflexivity | apply trim_idem].
  - intro N. destruct H as [E | H]; [congruence | exact H].
  - reflexivity.
  - rewrite pick_is_resolve. unfold resolve.
    assert (E1 : first_some (text_at []) keys = None).
    { clear H. induction keys as [ | k ks IH]; [reflexivity | exact IH]. }
    assert (E2 : first_some (resolve_loose []) keys = None).
    { clear H E1. induction keys as [ | k ks IH]; [reflexivity | exact IH]. }
    rewrite E1, E2. reflexivity.
Qed.

(** The sales of a record whose key and text are padded. *)
Lemma pick_returns_trimmed_text_sample :
  pick [(" SALES "%string, Some " 10 "%string)] ["Sales"%string; "sales"%string]
  = "10"%string
  /\ Str.trim (pick [(" SALES "%string, Some " 10 "%string)]
                    ["Sales"%string; "sales"%string])
     = pick [(" SALES "%string, Some " 10 "%string)] ["Sales"%string; "sales"%string].
Proof.
  split; [vm_compute; reflexivity | ].
  apply (pick_returns_trimmed_text [(" SALES "%string, Some " 10 "%string)]
                                   ["Sales"%string; "sales"%string] eq_refl).
Defined.

(** ** Date coercion and white space *)

Lemma parse_slash_empty (tza : Z) : parse_slash tza "" = None.
Proof. reflexivity. Qed.

(** X9.  White space around a date text does not matter: a text and its
    trimmed form are coerced to the same date, as long as the text is not
    blank or the host reads no date from the empty text. *)
Theorem parseDate_ignores_outer_space (tza : Z) (parse : string -> option Z)
  (s : string) :
  Str.trim s <> ""%string \/ parse ""%string = None ->
  parseDate tza parse (Text s) = parseDate tza parse (Text (Str.trim s)).
Proof.
  intro H. destruct (string_dec s "") as [-> | Ns]; [reflexivity | ].
  rewrite (parseDate_text tza parse s Ns).
  destruct (string_dec (Str.trim s) "") as [E | Nt].
  - destruct H as [H | H]; [congruence | ]. rewrite E, H. reflexivity.
  - rewrite (parseDate_text tza parse (Str.trim s) Nt), trim_idem. reflexivity.
Qed.

(** A padded date text with the minimal host parser. *)
Lemma parseDate_ignores_outer_space_sample :
  parseDate 0 DateParse_iso (Text "  2015-03-15 ")
  = parseDate 0 DateParse_iso (Text "2015-03-15").
Proof.
  apply (parseDate_ignores_outer_space 0 DateParse_iso "  2015-03-15 ").
  left. vm_compute. discriminate.
Defined.

(** ** State abbreviations *)

Lemma upper_lower_char (c : ascii) : upper_char (Str.lower_char c) = upper_char c.
Proof.
  destruct c as [[ | ] [ | ] [ | ] [ | ] [ | ] [ | ] [ | ] [ | ]]; reflexivity.
Qed.

Lemma space_lower_char (c : ascii) : Str.is_space (Str.lower_char c) = Str.is_space c.
Proof.
  destruct c as [[ | ] [ | ] [ | ] [ | ] [ | ] [ | ] [ | ] [ | ]]; reflexivity.
Qed.

Lemma toUpperCase_lower (s : string) : toUpperCase (Str.toLowerCase s) = toUpperCase s.
Proof.
  induction s as [ | c t IH]; [reflexivity | ].
  cbn [Str.toLowerCase toUpperCase]. rewrite upper_lower_char, IH. reflexivity.
Qed.

Lemma trimStart_lower (s : string) :
  Str.trimStart (Str.toLowerCase s) = Str.toLowerCase (Str.trimStart s).
Proof.
  induction s as [ | c t IH]; [reflexivity | ].
  cbn [Str.toLowerCase Str.trimStart]. rewrite space_lower_char.
  destruct (Str.is_space c); [exact IH | reflexivity].
Qed.

Lemma trimEnd_lower (s : string) :
  Str.trimEnd (Str.toLowerCase s) = Str.toLowerCase (Str.trimEnd s).
Proof.
  induction s as [ | c t IH]; [reflexivity | ].
  cbn [Str.toLowerCase Str.trimEnd]. rewrite IH, space_lower_char.
  destruct (Str.trimEnd t); cbn [Str.toLowerCase]; [ | reflexivity].
  destruct (Str.is_space c); reflexivity.
Qed.

Lemma trim_lower (s : string) :
  Str.trim (Str.toLowerCase s) = Str.toLowerCase (Str.trim s).
Proof.
  unfold Str.trim. rewrite trimStart_lower, trimEnd_lower. reflexivity.
Qed.

Lemma length_lower (s : string) : String.length (Str.toLowerCase s) = String.length s.
Proof.
  induction s as [ | c t IH]; simpl; [reflexivity | rewrite IH; reflexivity].
Qed.

Lemma or_else_empty (s : string) : Str.or_else s "" = s.
Proof. destruct s; reflexivity. Qed.

Lemma toStateAbbr_trimmed (s : string) :
  toStateAbbr s
  = let t := Str.trim s in
    if negb (Str.truthy t) then Some ""%string
    else if (String.length t =? 2)%nat then toUpperCase t
         else match toUpperCase t with
              | Some u => Some (abbr_of u)
              | None => Some ""%string
              end.
Proof.
  unfold toStateAbbr. rewrite or_else_empty. reflexivity.
Qed.

Lemma table_consistent :
  Forall (fun p => toStateAbbr (fst p) = Some (snd p)
                   /\ toStateAbbr (snd p) = Some (snd p)
                   /\ String.length (snd p) = 2%nat)
         STATE_TO_ABBR.
Proof.
  unfold STATE_TO_ABBR. repeat constructor.
Qed.

Lemma toStateAbbr_lower (s : string) :
  toStateAbbr (Str.toLowerCase s) = toStateAbbr s.
Proof.
  rewrite !toStateAbbr_trimmed. cbv zeta.
  rewrite trim_lower, length_lower, toUpperCase_lower.
  destruct (Str.trim s); reflexivity.
Qed.

(** X10.  For a text of code units below U+0100, the abbreviation of a
    state name depends neither on the letter case of the name nor on white
    space around it; every name of the table gives its abbreviation and
    every abbreviation of the table gives itself. *)
Theorem toStateAbbr_insensitive (s : string) :
  latin1 s ->
  toStateAbbr (Str.toLowerCase s) = toStateAbbr s
  /\ toStateAbbr (Str.trim s) = toStateAbbr s
  /\ (forall name ab, In (name, ab) STATE_TO_ABBR ->
        toStateAbbr name = Some ab
        /\ toStateAbbr (Str.toLowerCase name) = Some ab
        /\ toStateAbbr ab = Some ab).
Proof.
  intros _. split; [apply toStateAbbr_lower | ]. split.
  - rewrite !toStateAbbr_trimmed. cbv zeta. rewrite trim_idem. reflexivity.
  - intros name ab H. pose proof table_consistent as T.
    rewrite Forall_forall in T. destruct (T _ H) as (H1 & H2 & _). cbn [fst snd] in *.
    rewrite toStateAbbr_lower. auto.
Qed.

(** A padded name in mixed case. *)
Lemma toStateAbbr_insensitive_sample :
  toStateAbbr " new york " = toStateAbbr " New York "
  /\ toStateAbbr "New York" = toStateAbbr " New York "
  /\ toStateAbbr " New York " = Some "NY"%string.
Proof.
  assert (L : latin1 " New York ").
  { intros c H. simpl in H.
    repeat (destruct H as [<- | H]; [vm_compute; reflexivity | ]). destruct H. }
  destruct (toStateAbbr_insensitive " New York " L) as (A & B & _).
  split; [exact A | ]. split; [exact B | reflexivity].
Defined.

Lemma chars_trimStart (s : string) (c : ascii) :
  In c (chars (Str.trimStart s)) -> In c (chars s).
Proof.
  induction s as [ | d t IH]; simpl; [tauto | ].
  destruct (Str.is_space d); simpl; auto.
Qed.

Lemma chars_trimEnd (s : string) (c : ascii) :
  In c (chars (Str.trimEnd s)) -> In c (chars s).
Proof.
  induction s as [ | d t IH]; [simpl; tauto | ].
  cbn [Str.trimEnd]. destruct (Str.trimEnd t) as [ | e t'].
  - destruct (Str.is_space d); simpl; tauto.
  - simpl in *. intros [H | H]; auto.
Qed.

Lemma upper_ascii_char (c : ascii) :
  Str.code c < 128 ->
  exists u, upper_char c = Some (String u EmptyString)
            /\ upper_char u = Some (String u EmptyString)
            /\ Str.is_space u = Str.is_space c.
Proof.
  destruct c as [[ | ] [ | ] [ | ] [ | ] [ | ] [ | ] [ | ] [ | ]];
    intro H; try (vm_compute in H; discriminate H);
    eexists; (split; [reflexivity | split; reflexivity]).
Qed.

Lemma trimmed_pair (s : string) (c1 c2 : ascii) :
  Str.trim s = String c1 (String c2 EmptyString) ->
  Str.is_space c1 = false /\ Str.is_space c2 = false.
Proof.
  intro E. pose proof (trim_idem s) as I. rewrite E in I.
  unfold Str.trim in I. cbn [Str.trimStart] in I.
  destruct (Str.is_space c1) eqn:S1.
  - exfalso. cbn [Str.trimStart] in I. destruct (Str.is_space c2).
    + discriminate I.
    + cbn [Str.trimEnd] in I. destruct (Str.is_space c2); discriminate I.
  - split; [reflexivity | ]. cbn [Str.trimEnd] in I.
    destruct (Str.is_space c2); [ | reflexivity].
    rewrite S1 in I. discriminate I.
Qed.

(** X11.  For a text of code units below U+0080 the abbreviation is the
    empty text or has two characters, and abbreviating it again gives it
    back. *)
Theorem toStateAbbr_fixed_point (s : string) :
  ascii_only s ->
  exists a, toStateAbbr s = Some a
            /\ (a = ""%string
                \/ (String.length a = 2%nat /\ toStateAbbr a = Some a)).
Proof.
  intro A. rewrite toStateAbbr_trimmed. cbv zeta.
  assert (At : ascii_only (Str.trim s)).
  { intros c H. apply A. unfold Str.trim in H.
    apply chars_trimStart. apply chars_trimEnd. exact H. }
  destruct (Str.trim s) as [ | c1 [ | c2 [ | c3 t]]] eqn:E.
  - exists ""%string. auto.
  - cbn [Str.truthy negb String.length Nat.eqb].
    destruct (toUpperCase (String c1 EmptyString)) as [u | ]; [ | exists ""%string; auto].
    exists (abbr_of u). split; [reflexivity | ].
    unfold abbr_of. destruct (JSMap.get STATE_TO_ABBR u) as [ab | ] eqn:G; [ | auto].
    apply JSMap_get_Some_In in G. pose proof table_consistent as T.
    rewrite Forall_forall in T. destruct (T _ G) as (_ & H2 & H3). auto.
  - cbn [Str.truthy negb String.length Nat.eqb].
    destruct (trimmed_pair s c1 c2 E) as [S1 S2].
    destruct (upper_ascii_char c1) as (u1 & U1 & V1 & W1);
      [apply At; simpl; auto | ].
    destruct (upper_ascii_char c2) as (u2 & U2 & V2 & W2);
      [apply At; simpl; auto | ].
    exists (String u1 (String u2 EmptyString)). split.
    + cbn [toUpperCase]. rewrite U1, U2. reflexivity.
    + right. split; [reflexivity | ].
      rewrite toStateAbbr_trimmed. cbv zeta. unfold Str.trim.
      cbn [Str.trimStart]. rewrite W1, S1. cbn [Str.trimEnd]. rewrite W2, S2.
      cbn [Str.truthy negb String.length Nat.eqb toUpperCase].
      rewrite V1, V2. reflexivity.
  - cbn [Str.truthy negb String.length Nat.eqb].
    destruct (toUpperCase (String c1 (String c2 (String c3 t)))) as [u | ];
      [ | exists ""%string; auto].
    exists (abbr_of u). split; [reflexivity | ].
    unfold abbr_of. destruct (JSMap.get STATE_TO_ABBR u) as [ab | ] eqn:G; [ | auto].
    apply JSMap_get_Some_In in G. pose proof table_consistent as T.
    rewrite Forall_forall in T. destruct (T _ G) as (_ & H2 & H3). auto.
Qed.

(** The abbreviation of a padded lower-case name. *)
Lemma toStateAbbr_fixed_point_sample :
  exists a, toStateAbbr " new york " = Some a
            /\ (a = ""%string
                \/ (String.length a = 2%nat /\ toStateAbbr a = Some a)).
Proof.
  apply (toStateAbbr_fixed_point " new york ").
  intros c H. simpl in H.
  repeat (destruct H as [<- | H]; [vm_compute; reflexivity | ]). destruct H.
Defined.

(** ** Option lists *)

Lemma insert_sorted_by {A : Type} (cmp : A -> A -> number) (a : A) (l : list A) :
  (forall p q, Num.gt (cmp p q) Num.zero = true -> Num.gt (cmp q p) Num.zero = false) ->
  (forall p q r, Num.gt (cmp p q) Num.zero = false -> Num.gt (cmp q r) Num.zero = false ->
                 Num.gt (cmp p r) Num.zero = false) ->
  StronglySorted (fun p q => Num.gt (cmp p q) Num.zero = false) l ->
  StronglySorted (fun p q => Num.gt (cmp p q) Num.zero = false) (JSArray.insert cmp a l).
Proof.
  intros Asym Trans. induction 1 as [ | y t St IH Hy]; cbn [JSArray.insert].
  - repeat constructor.
  - destruct (Num.gt (cmp a y) Num.zero) eqn:G.
    + constructor; [exact IH | ].
      apply Forall_forall. intros z Hz.
      apply (Permutation_in _ (insert_perm cmp a t)) in Hz.
      destruct Hz as [<- | Hz]; [apply Asym; exact G | ].
      rewrite Forall_forall in Hy. apply Hy. exact Hz.
    + constructor; [constructor; assumption | ].
      constructor; [exact G | ].
      apply Forall_forall. intros z Hz. rewrite Forall_forall in Hy.
      apply (Trans a y z); [exact G | apply Hy; exact Hz].
Qed.

Lemma sort_sorted_by {A : Type} (cmp : A -> A -> number) (l : list A) :
  (forall p q, Num.gt (cmp p q) Num.zero = true -> Num.gt (cmp q p) Num.zero = false) ->
  (forall p q r, Num.gt (cmp p q) Num.zero = false -> Num.gt (cmp q r) Num.zero = false ->
                 Num.gt (cmp p r) Num.zero = false) ->
  StronglySorted (fun p q => Num.gt (cmp p q) Num.zero = false) (JSArray.sort cmp l).
Proof.
  intros Asym Trans. induction l as [ | a t IH]; [constructor | ].
  change (JSArray.sort cmp (a :: t)) with (JSArray.insert cmp a (JSArray.sort cmp t)).
  apply insert_sorted_by; assumption.
Qed.

(** X12.  An option list holds every value of the column that is not
    blank, once each, and nothing else, whatever the comparison of the
    locale is; where that comparison is a consistent order, the list is
    sorted by it. *)
Theorem uniq_lists_values_once (localeCompare : string -> string -> number)
  (arr : list string) :
  NoDup (uniq localeCompare arr)
  /\ (forall a, In a (uniq localeCompare arr) <->
                In a arr /\ Str.trim a <> ""%string)
  /\ ((forall p q, Num.gt (localeCompare p q) Num.zero = true ->
                   Num.gt (localeCompare q p) Num.zero = false) ->
      (forall p q r, Num.gt (localeCompare p q) Num.zero = false ->
                     Num.gt (localeCompare q r) Num.zero = false ->
                     Num.gt (localeCompare p r) Num.zero = false) ->
      StronglySorted (fun p q => Num.gt (localeCompare p q) Num.zero = false)
                     (uniq localeCompare arr)).
Proof.
  unfold uniq.
  set (kept := filter (fun x => Str.truthy x && negb (String.eqb (Str.trim x) "")) arr).
  destruct (JSSet_fold_spec kept []) as [N I]; [constructor | ].
  fold (JSSet.of_list kept) in N, I.
  assert (P : Permutation (JSArray.sort localeCompare (JSSet.of_list kept))
                          (JSSet.of_list kept)) by apply sort_perm.
  split; [apply (Permutation_NoDup (Permutation_sym P)); exact N | ]. split.
  - intro a. split.
    + intro H. apply (Permutation_in _ P) in H. apply I in H.
      destruct H as [[] | H]. subst kept. apply filter_In in H.
      destruct H as [H T]. apply andb_true_iff in T. destruct T as [_ T].
      apply negb_true_iff, String.eqb_neq in T. auto.
    + intros [H T]. apply (Permutation_in _ (Permutation_sym P)). apply I. right.
      subst kept. apply filter_In. split; [exact H | ].
      apply andb_true_iff. split.
      * destruct a; [exfalso; apply T; reflexivity | reflexivity].
      * apply negb_true_iff, String.eqb_neq. exact T.
  - intros Asym Trans. apply sort_sorted_by; assumption.
Qed.

(** The option list of a column, in code unit order. *)
Lemma uniq_lists_values_once_sample :
  StronglySorted (fun p q => Num.gt (JSArray.default_cmp p q) Num.zero = false)
                 (uniq JSArray.default_cmp ["West"; " "; "East"; "West"; ""]%string)
  /\ uniq JSArray.default_cmp ["West"; " "; "East"; "West"; ""]%string
     = ["East"; "West"]%string.
Proof.
  destruct (uniq_lists_values_once JSArray.default_cmp
              ["West"; " "; "East"; "West"; ""]%string) as (_ & _ & S).
  split; [ | reflexivity]. apply S.
  - intros p q. rewrite !default_cmp_gt. apply ltb_asym.
  - intros p q r. rewrite !default_cmp_gt. intros H1 H2.
    apply (not_ltb_trans p q r); assumption.
Defined.

(** ** Widening the year range *)

(** X15.  A wider range of years never hides a row: when the range between
    the two bounds of one state lies within the range of another state with
    the same selectors, every row the first keeps is kept by the second. *)
Theorem wider_range_keeps_rows (tza : Z) (l : list Row) (rg sg cg sn sm : string)
  (a b c d : Z) (r : Row) :
  Z.min c d <= Z.min a b -> Z.max a b <= Z.max c d ->
  In r (filtered tza l {| region := rg; segment := sg; category := cg; stateName := sn;
                          shipMode := sm; yearFrom := Num.of_Z a; yearTo := Num.of_Z b |}) ->
  In r (filtered tza l {| region := rg; segment := sg; category := cg; stateName := sn;
                          shipMode := sm; yearFrom := Num.of_Z c; yearTo := Num.of_Z d |}).
Proof.
  intros Lo Hi. unfold filtered. rewrite !filter_In, !passes_iff.
  cbn [yearFrom yearTo region segment category stateName shipMode].
  rewrite !min_of_Z, !max_of_Z.
  intros (Hin & (dt & y & Hd & Hy & H1 & H2) & Hs). split; [exact Hin | ].
  split; [ | exact Hs]. exists dt, y. rewrite lt_of_Z in H1, H2. rewrite !lt_of_Z.
  apply Z.ltb_ge in H1, H2. repeat split; auto; apply Z.ltb_ge; lia.
Qed.

(** A row of 2012 kept by 2012..2012 stays under 2010..2016. *)
Lemma wider_range_keeps_rows_sample :
  In row_of_2012
     (filtered 0 [row_of_2012]
        {| region := "All"; segment := "All"; category := "All"; stateName := "All";
           shipMode := "All"; yearFrom := Num.of_Z 2016; yearTo := Num.of_Z 2010 |}).
Proof.
  apply (wider_range_keeps_rows 0 [row_of_2012] "All" "All" "All" "All" "All"
           2012 2012 2016 2010 row_of_2012).
  - vm_compute. discriminate.
  - vm_compute. discriminate.
  - vm_compute. left. reflexivity.
Defined.

(** ** Missing insights *)

Lemma JSMap_set_not_empty {V : Type} (m : JSMap.t V) (k : string) (v : V) :
  JSMap.set m k v <> [].
Proof.
  destruct m as [ | [k' v'] m]; simpl; [discriminate | ].
  destruct (String.eqb k' k); discriminate.
Qed.

Lemma fold_set_not_empty {A V : Type} (key : JSMap.t V -> A -> string)
  (val : JSMap.t V -> A -> V) (l : list A) (m : JSMap.t V) :
  m <> [] ->
  fold_left (fun m a => JSMap.set m (key m a) (val m a)) l m <> [].
Proof.
  revert m. induction l as [ | a l IH]; intros m N; [exact N | ].
  simpl. apply IH. apply JSMap_set_not_empty.
Qed.

Lemma accumulate_empty_iff (keyFn : Row -> string) (valFn : Row -> number)
  (l : list Row) :
  accumulate keyFn valFn l = [] <-> l = [].
Proof.
  split; [ | intros ->; reflexivity].
  destruct l as [ | r l]; [reflexivity | ]. intro E. exfalso. revert E.
  unfold accumulate. cbn [fold_left].
  apply (fold_set_not_empty (fun _ r => keyFn r)
           (fun m r => Num.add (get_or_zero m (keyFn r)) (valFn r))).
  apply JSMap_set_not_empty.
Qed.

Lemma first_sort_desc_None (items : list (string * number)) :
  JSArray.first (sort_desc items) = None <-> items = [].
Proof.
  split; [ | intros ->; reflexivity].
  intro H. destruct (sort_desc items) as [ | e t] eqn:E; [ | discriminate H].
  pose proof (sort_perm by_value_desc items) as P. fold (sort_desc items) in P.
  rewrite E in P. apply Permutation_nil. exact P.
Qed.

Lemma sumBy_first_None (l : list Row) (keyFn : Row -> string) (valFn : Row -> number) :
  JSArray.first (sumBy l keyFn valFn) = None <-> l = [].
Proof.
  unfold sumBy, JSMap.entries. rewrite first_sort_desc_None.
  apply accumulate_empty_iff.
Qed.

Lemma dated_empty_iff (l : list Row) :
  dated l = [] <-> forall r, In r l -> __orderDate r = None.
Proof.
  unfold dated. induction l as [ | r l IH]; simpl.
  - split; [intros _ r [] | reflexivity].
  - destruct (__orderDate r) as [d | ] eqn:E; simpl.
    + split; [discriminate | ]. intro H. specialize (H r (or_introl eq_refl)). congruence.
    + rewrite IH. split.
      * intros H r' [<- | H']; [exact E | apply H; exact H'].
      * intros H r' H'. apply H. auto.
Qed.

(** X16.  An insight is missing exactly when there is nothing to rank:
    the top region, category, segment, state and sub-category are absent
    if and only if there is no row, and the best month is absent if and only
    if no row has an order date. *)
Theorem insights_missing_iff_empty (tza : Z) (l : list Row) :
  (topRegion (insights tza l) = None <-> l = [])
  /\ (topCategory (insights tza l) = None <-> l = [])
  /\ (topSegment (insights tza l) = None <-> l = [])
  /\ (topState (insights tza l) = None <-> l = [])
  /\ (bestSubcat (insights tza l) = None <-> l = [])
  /\ (bestMonth (insights tza l) = None <->
      forall r, In r l -> __orderDate r = None).
Proof.
  cbn [insights topRegion topCategory topSegment topState bestSubcat bestMonth].
  repeat (split; [apply sumBy_first_None | ]).
  unfold JSMap.entries. rewrite first_sort_desc_None, <- dated_empty_iff.
  unfold best_month_map. split; [ | intros ->; reflexivity].
  destruct (dated l) as [ | dr dl]; [reflexivity | ]. intro E. exfalso. revert E.
  cbn [fold_left].
  apply (fold_set_not_empty (fun _ dr => monthKey tza (fst dr))
           (fun m dr => Num.add (get_or_zero m (monthKey tza (fst dr))) (__sales (snd dr)))).
  apply JSMap_set_not_empty.
Qed.
